(** * The raw-mode line editor of [src/bash.c]

    A shallow embedding of the console front-end: the termios handling
    ([console_initialize], [console_finalize]), the byte-at-a-time line
    reader ([get_cmd]) and the prompt loop ([console_run], [main]).

    Conventions of the embedding.
    - A [char] is an [ascii] (eight bits); the command buffer [p_cmd] is a
      [list ascii] indexed from 0, of the length of the C array.
    - [size_t] values are [Z] with the wrap-around modulo 2^64 written out;
      [int] statuses are [Z].
    - The process environment is a [world]: the terminal settings behind
      file descriptor 0 (absent when stdin is not a terminal), the input
      still to be delivered by [read], and every byte written to stdout.
      [stdout] records the bytes in the order [printf] produced them, so
      [fflush] changes nothing in it.
    - Loops that C writes with [for (;;)] take a fuel argument; [None]
      means that the loop is still running when the fuel is used up. *)

From Stdlib Require Import ZArith Ascii String DecimalString List Bool Lia.
Import ListNotations.
Local Open Scope Z_scope.
Local Open Scope list_scope.

(** ** Constants and macros *)

Definition VERSION_MAJOR : Z := 0.
Definition VERSION_MINOR : Z := 1.
Definition DEFAULT_HISTORY_MAXLEN : Z := 30.
Definition DEFAULT_CMD_MAXLEN : Z := 1024.

(** [#define KEY_CTRL(k) ((k) & 0x1F)], on the [int] value of the key. *)
Definition KEY_CTRL (k : Z) : Z := Z.land k 0x1F.
Definition KEY_ENTER : Z := 13.
Definition KEY_ESCAPE : Z := 27.
Definition KEY_BACKSPACE : Z := 127.

(** ** Machine integers and characters *)

Definition SIZE_MODULUS : Z := 2 ^ 64.
Definition size_t_wrap (z : Z) : Z := z mod SIZE_MODULUS.
(** [x++] and [--x] on a [size_t]. *)
Definition size_incr (z : Z) : Z := size_t_wrap (z + 1).
Definition size_decr (z : Z) : Z := size_t_wrap (z - 1).

Definition byte_of_char (c : ascii) : Z := Z.of_N (N_of_ascii c).
(** Integer promotion of a [char] in [switch (c)] and in a character
    constant.  Plain [char] is taken signed, as gcc has it on x86; the
    case labels 3, 4 and 13 select the same bytes when it is unsigned. *)
Definition int_of_char (c : ascii) : Z :=
  let n := byte_of_char c in if n <? 128 then n else n - 256.

Definition NUL : ascii := "000"%char.
Definition CR : ascii := "013"%char.
Definition LF : ascii := "010"%char.
Definition BS : ascii := "008"%char.

(** A string literal as the bytes [printf] writes for it. *)
Definition lit (s : string) : list ascii := list_ascii_of_string s.
Definition CRLF : list ascii := [CR; LF].

(** ** Arrays of [char] *)

Definition load (p : list ascii) (i : Z) : ascii := nth (Z.to_nat i) p NUL.

Fixpoint store_nat (p : list ascii) (i : nat) (v : ascii) : list ascii :=
  match p, i with
  | [], _ => []
  | _ :: t, O => v :: t
  | h :: t, S j => h :: store_nat t j v
  end.

(** [p[i] = v].  An index outside the array is undefined behaviour in C;
    here it leaves the array as it is, and [get_cmd_accesses_in_bounds]
    below shows that [get_cmd] never produces one. *)
Definition store (p : list ascii) (i : Z) (v : ascii) : list ascii :=
  if i <? 0 then p else store_nat p (Z.to_nat i) v.

(** [memset(p, c, n)]. *)
Definition memset (p : list ascii) (c : ascii) (n : Z) : list ascii :=
  repeat c (Z.to_nat n) ++ skipn (Z.to_nat n) p.

(** The C string held in an array: the bytes before the first NUL.  When
    the array holds no NUL, reading the string runs past the array, which
    C leaves undefined: [None]. *)
Fixpoint c_string (p : list ascii) : option (list ascii) :=
  match p with
  | [] => None
  | c :: t =>
      if Ascii.eqb c NUL then Some []
      else match c_string t with
           | Some s => Some (c :: s)
           | None => None
           end
  end.

Definition strlen (p : list ascii) : option Z :=
  match c_string p with
  | Some s => Some (Z.of_nat (length s))
  | None => None
  end.

(** ** Terminal settings and the process environment *)

Record termios := mk_termios {
  c_iflag : Z;
  c_oflag : Z;
  c_cflag : Z;
  c_lflag : Z;
  c_cc : list ascii
}.

(** The flag bits of [<termios.h>].  The header belongs to the platform,
    not to the repository, so its values are parameters of the model. *)
Class termios_h := {
  ECHO : Z; ICANON : Z; ISIG : Z; IEXTEN : Z;
  BRKINT : Z; ICRNL : Z; INPCK : Z; ISTRIP : Z; IXON : Z;
  OPOST : Z;
  CS8 : Z
}.

(** The values of Linux (asm-generic/termbits.h), for concrete runs. *)
Definition linux_termios_h : termios_h := {|
  ECHO := 0x8; ICANON := 0x2; ISIG := 0x1; IEXTEN := 0x8000;
  BRKINT := 0x2; ICRNL := 0x100; INPCK := 0x10; ISTRIP := 0x20; IXON := 0x400;
  OPOST := 0x1;
  CS8 := 0x30
|}.

(** [tcflag_t] is a 32-bit unsigned integer. *)
Definition tcflag_wrap (z : Z) : Z := z mod 2 ^ 32.
Definition tcflag_not (m : Z) : Z := tcflag_wrap (Z.lnot m).

(** What one call of [read(STDIN_FILENO, &c, 1)] meets: a byte, or a
    failure (return value -1).  When the list of events is used up the
    stream is closed, and [read] returns 0 from then on. *)
Inductive input_event : Type :=
| Key (c : ascii)
| ReadFail.

Record world := mk_world {
  tty : option termios;
  stdin : list input_event;
  stdout : list ascii
}.

Definition set_tty (w : world) (t : option termios) : world :=
  {| tty := t; stdin := stdin w; stdout := stdout w |}.
Definition set_stdin (w : world) (i : list input_event) : world :=
  {| tty := tty w; stdin := i; stdout := stdout w |}.

Definition printf (s : list ascii) (w : world) : world :=
  {| tty := tty w; stdin := stdin w; stdout := stdout w ++ s |}.
Definition fflush (w : world) : world := w.

(** [tcgetattr(STDIN_FILENO, &t)]: fills [t] and returns 0 on a terminal,
    returns -1 and leaves [t] alone otherwise. *)
Definition tcgetattr (w : world) (t : termios) : Z * termios :=
  match tty w with
  | Some cur => (0, cur)
  | None => (-1, t)
  end.

(** [tcsetattr(STDIN_FILENO, TCSAFLUSH, &t)]. *)
Definition tcsetattr (t : termios) (w : world) : Z * world :=
  match tty w with
  | Some _ => (0, set_tty w (Some t))
  | None => (-1, w)
  end.

(** [read(STDIN_FILENO, &c, 1)]: the return value, the content of [c]
    afterwards, and the environment. *)
Definition read (c : ascii) (w : world) : Z * ascii * world :=
  match stdin w with
  | Key b :: rest => (1, b, set_stdin w rest)
  | ReadFail :: rest => (-1, c, set_stdin w rest)
  | [] => (0, c, w)
  end.

(** ** The console context *)

Record console_t := mk_console {
  old_console : termios;
  new_console : termios;
  pp_history : option (list (list ascii));
  history_max : Z
}.

Definition zero_termios : termios :=
  {| c_iflag := 0; c_oflag := 0; c_cflag := 0; c_lflag := 0; c_cc := [] |}.

Definition set_old_console (p : console_t) (t : termios) : console_t :=
  {| old_console := t; new_console := new_console p;
     pp_history := pp_history p; history_max := history_max p |}.
Definition set_new_console (p : console_t) (t : termios) : console_t :=
  {| old_console := old_console p; new_console := t;
     pp_history := pp_history p; history_max := history_max p |}.

Section Console.

Context {H : termios_h}.

(** The four flag assignments of [console_initialize]. *)
Definition make_raw (t : termios) : termios :=
  {| c_iflag := Z.land (c_iflag t)
                  (tcflag_not (Z.lor BRKINT (Z.lor ICRNL (Z.lor INPCK (Z.lor ISTRIP IXON)))));
     c_oflag := Z.land (c_oflag t) (tcflag_not OPOST);
     c_cflag := Z.lor (c_cflag t) CS8;
     c_lflag := Z.land (c_lflag t)
                  (tcflag_not (Z.lor ECHO (Z.lor ICANON (Z.lor ISIG IEXTEN))));
     c_cc := c_cc t |}.

(** [console_initialize]: a pointer is [None] when it is [NULL]; the
    pointed-to context is returned as the call leaves it. *)
Definition console_initialize (p_console : option console_t) (w : world)
  : Z * option console_t * world :=
  match p_console with
  | None => (-1, None, w)
  | Some con =>
      let '(r1, old) := tcgetattr w (old_console con) in
      let con := set_old_console con old in
      if r1 =? -1 then (-1, Some con, w)
      else
        let '(r2, new) := tcgetattr w (new_console con) in
        let con := set_new_console con new in
        if r2 =? -1 then (-1, Some con, w)
        else
          let con := set_new_console con (make_raw (new_console con)) in
          let '(r3, w) := tcsetattr (new_console con) w in
          if r3 =? -1 then (-1, Some con, w)
          else (0, Some con, w)
  end.

(** [console_finalize]: the result of [tcsetattr] is dropped. *)
Definition console_finalize (p_console : option console_t) (w : world) : world :=
  match p_console with
  | None => w
  | Some con => snd (tcsetattr (old_console con) w)
  end.

End Console.

(** ** [get_cmd] *)

(** The caller's buffer and the two indices [get_cmd] keeps on it.  The
    other locals ([e1], [e2], [p_cmd_copy], [hist_idx]) are written once
    and never read. *)
Record editor := mk_editor {
  p_cmd : list ascii;
  cmd_len : Z;
  cmd_idx : Z
}.

(** [for (size_t i = cmd_len; i > cmd_idx; --i) p_cmd[i] = p_cmd[i - 1];] *)
Fixpoint shift_loop (fuel : nat) (i idx : Z) (p : list ascii) : list ascii :=
  match fuel with
  | O => p
  | S fuel' =>
      if i >? idx
      then shift_loop fuel' (size_decr i) idx (store p i (load p (i - 1)))
      else p
  end.

(** [for (size_t i = cmd_idx; i < cmd_len; ++i) printf("%c", p_cmd[i]);] *)
Fixpoint reprint_loop (fuel : nat) (i len : Z) (p : list ascii) (w : world) : world :=
  match fuel with
  | O => w
  | S fuel' =>
      if i <? len
      then reprint_loop fuel' (size_incr i) len p (printf [load p i] w)
      else w
  end.

(** [for (size_t i = cmd_idx; i < cmd_len; ++i) printf("\b");] *)
Fixpoint backspace_loop (fuel : nat) (i len : Z) (w : world) : world :=
  match fuel with
  | O => w
  | S fuel' =>
      if i <? len
      then backspace_loop fuel' (size_incr i) len (printf [BS] w)
      else w
  end.

(** The [default:] case after its bounds check.  The shift loop counts [i]
    down from [cmd_len] to [cmd_idx], the two print loops count up from
    [cmd_idx] to [cmd_len]: the fuel given to each is its largest possible
    number of iterations. *)
Definition insert_char (c : ascii) (e : editor) (w : world) : editor * world :=
  let w := printf [c] w in
  let p := shift_loop (Z.to_nat (cmd_len e)) (cmd_len e) (cmd_idx e) (p_cmd e) in
  let p := store p (cmd_idx e) c in
  let len := size_incr (cmd_len e) in
  let idx := size_incr (cmd_idx e) in
  let w := reprint_loop (Z.to_nat (len - idx)) idx len p w in
  let w := backspace_loop (Z.to_nat (len - idx)) idx len w in
  ({| p_cmd := p; cmd_len := len; cmd_idx := idx |}, fflush w).

(** One pass through the body of [for (;;)]: either the loop goes round
    again, or [get_cmd] leaves through [EXIT] with a status. *)
Inductive flow : Type :=
| Next (e : editor) (w : world)
| Exit (status : Z) (e : editor) (w : world).

Definition get_cmd_iter (status : Z) (e : editor) (w : world) : flow :=
  let c := NUL in
  let '(r, c, w) := read c w in
  if r =? -1 then Exit status e w
  else if int_of_char c =? KEY_CTRL (int_of_char "c"%char) then
    Exit 1 e (printf (lit "^C") w)
  else if int_of_char c =? KEY_CTRL (int_of_char "d"%char) then
    Exit status e w
  else if int_of_char c =? KEY_ENTER then
    Exit 0 e w
  else if cmd_len e >=? DEFAULT_CMD_MAXLEN then Next e w
  else let '(e, w) := insert_char c e w in Next e w.

Fixpoint get_cmd_loop (fuel : nat) (status : Z) (e : editor) (w : world)
  : option (Z * editor * world) :=
  match fuel with
  | O => None
  | S fuel' =>
      match get_cmd_iter status e w with
      | Exit s e' w' => Some (s, e', w')
      | Next e' w' => get_cmd_loop fuel' status e' w'
      end
  end.

(** The editor state at the top of the loop. *)
Definition editor_init (buf : list ascii) : editor :=
  {| p_cmd := buf; cmd_len := 0; cmd_idx := 0 |}.

(** [get_cmd]: status, the caller's buffer afterwards, the environment. *)
Definition get_cmd (fuel : nat) (p_console : option console_t)
    (p_buf : option (list ascii)) (w : world)
  : option (Z * option (list ascii) * world) :=
  let status := -1 in
  match p_console, p_buf with
  | Some _, Some buf =>
      match get_cmd_loop fuel status (editor_init buf) w with
      | Some (s, e, w') => Some (s, Some (p_cmd e), w')
      | None => None
      end
  | _, _ => Some (status, p_buf, w)
  end.

(** The state of the loop after [n] passes that all went round again;
    [None] when [get_cmd] left the loop earlier. *)
Fixpoint get_cmd_after (n : nat) (e : editor) (w : world) : option (editor * world) :=
  match n with
  | O => Some (e, w)
  | S n' =>
      match get_cmd_iter (-1) e w with
      | Next e' w' => get_cmd_after n' e' w'
      | Exit _ _ _ => None
      end
  end.

(** ** [console_run] and [main] *)

(** How a run of code that loops, and that may read a string out of an
    array, can end: with a value, in undefined behaviour, or still going
    when the fuel is used up. *)
Inductive result (A : Type) : Type :=
| Done (a : A)
| Undefined
| Running.
Arguments Done {A} a.
Arguments Undefined {A}.
Arguments Running {A}.

(** [printf("%d", z)]. *)
Definition print_int (z : Z) : list ascii :=
  lit (DecimalString.NilZero.string_of_int (Z.to_int z)).

Definition banner : list ascii :=
  lit "Mike's bash clone v" ++ print_int VERSION_MAJOR ++ lit "."
    ++ print_int VERSION_MINOR ++ CRLF.
Definition hint : list ascii := lit "Press CTRL-D to exit." ++ CRLF.
Definition prompt (prompt_c : ascii) : list ascii := [prompt_c; " "%char].

(** One pass through the body of the main command loop. *)
Inductive turn : Type :=
| Again (buf : list ascii) (w : world)
| Break (buf : list ascii) (w : world)
| TurnUndefined
| TurnRunning.

Definition console_turn (fuel : nat) (p_console : option console_t)
    (prompt_c : ascii) (buf : list ascii) (w : world) : turn :=
  let buf := memset buf NUL DEFAULT_CMD_MAXLEN in
  let w := printf (prompt prompt_c) w in
  let w := fflush w in
  match get_cmd fuel p_console (Some buf) w with
  | None => TurnRunning
  | Some (status, p_buf, w) =>
      let buf := match p_buf with Some b => b | None => buf end in
      let w := printf CRLF w in
      if 0 >? status then Break buf (fflush w)
      else if 1 =? status then
        match strlen buf with
        | None => TurnUndefined
        | Some n => Again buf (if 0 =? n then printf hint w else w)
        end
      else
        match c_string buf with
        | None => TurnUndefined
        | Some s => Again buf (printf (lit "'" ++ s ++ lit "'" ++ CRLF) w)
        end
  end.

(** The main command loop.  [fuel] bounds the passes of this loop and,
    within each pass, those of the loop of [get_cmd]. *)
Fixpoint console_loop (fuel : nat) (p_console : option console_t)
    (prompt_c : ascii) (buf : list ascii) (w : world) : result world :=
  match fuel with
  | O => Running
  | S fuel' =>
      match console_turn (S fuel') p_console prompt_c buf w with
      | Again buf' w' => console_loop fuel' p_console prompt_c buf' w'
      | Break _ w' => Done w'
      | TurnUndefined => Undefined
      | TurnRunning => Running
      end
  end.

Section Run.

Context {H : termios_h}.

(** [console_run].  [stack] is what the automatic array [p_cmd] holds
    before the first [memset]. *)
Definition console_run (fuel : nat) (p_console : option console_t)
    (stack : list ascii) (w : world) : result (option console_t * world) :=
  match p_console with
  | None => Done (p_console, console_finalize p_console w)
  | Some _ =>
      let '(r, p_console, w) := console_initialize p_console w in
      if -1 =? r then Done (p_console, console_finalize p_console w)
      else
        let w := printf banner w in
        let prompt_c := "$"%char in
        match console_loop fuel p_console prompt_c stack w with
        | Done w =>
            let w := printf (lit "Exiting..." ++ CRLF) w in
            Done (p_console, console_finalize p_console w)
        | Undefined => Undefined
        | Running => Running
        end
  end.

(** The context [main] builds: [history_max] set, everything else zero. *)
Definition main_console : console_t :=
  {| old_console := zero_termios; new_console := zero_termios;
     pp_history := None; history_max := DEFAULT_HISTORY_MAXLEN |}.

Definition main (fuel : nat) (stack : list ascii) (w : world) : result (Z * world) :=
  match console_run fuel (Some main_console) stack w with
  | Done (_, w) => Done (0, w)
  | Undefined => Undefined
  | Running => Running
  end.

End Run.

(** ** Concrete runs *)

Definition keys (s : list ascii) : list input_event := map Key s.
Definition ETX : ascii := "003"%char.
Definition EOT : ascii := "004"%char.
Definition zeroed : list ascii := repeat NUL (Z.to_nat DEFAULT_CMD_MAXLEN).
Definition pipe (i : list input_event) : world :=
  {| tty := None; stdin := i; stdout := [] |}.
Definition cooked : termios :=
  {| c_iflag := 0x500; c_oflag := 0x5; c_cflag := 0xbf; c_lflag := 0x8a3b; c_cc := [] |}.
Definition terminal (i : list input_event) : world :=
  {| tty := Some cooked; stdin := i; stdout := [] |}.
Definition DEL : ascii := "127"%char.
Definition ESC : ascii := "027"%char.

(** ** Vocabulary of the statements *)

(** A byte that reaches the [default:] case. *)
Definition plain (c : ascii) : Prop := c <> ETX /\ c <> EOT /\ c <> CR.

(** The cursor sits at the end of the line, and the line fits the array. *)
Definition aligned (e : editor) : Prop :=
  cmd_idx e = cmd_len e /\ 0 <= cmd_len e <= DEFAULT_CMD_MAXLEN.

(** The loop state with [line] typed so far and the cursor at its end;
    [pad] is the rest of the array. *)
Definition editing (line pad : list ascii) : editor :=
  {| p_cmd := line ++ pad;
     cmd_len := Z.of_nat (length line);
     cmd_idx := Z.of_nat (length line) |}.

Definition capacity : nat := Z.to_nat DEFAULT_CMD_MAXLEN.

(** The buffer after the bytes [bs] went through the [default:] case. *)
Definition typed_into (buf bs : list ascii) : list ascii :=
  firstn (length buf) bs ++ skipn (length (firstn (length buf) bs)) buf.

(** An event on which a pass of [get_cmd] leaves through [EXIT]: a failed
    [read], or one of the three bytes with a case label. *)
Definition terminating (ev : input_event) : bool :=
  match ev with
  | ReadFail => true
  | Key c => Ascii.eqb c ETX || Ascii.eqb c EOT || Ascii.eqb c CR
  end.

(** A line of a session: the bytes typed, and whether the line was ended
    by Ctrl-C ([true]) or by a carriage return ([false]). *)
Definition line_input (l : list ascii * bool) : list input_event :=
  keys (fst l) ++ [Key (if snd l then ETX else CR)].

(** What a pass of the main loop is expected to print for such a line. *)
Definition line_output (prompt_c : ascii) (l : list ascii * bool) : list ascii :=
  prompt prompt_c ++ fst l
    ++ (if snd l
        then lit "^C" ++ CRLF ++ match fst l with [] => hint | _ :: _ => [] end
        else CRLF ++ lit "'" ++ fst l ++ lit "'" ++ CRLF).

(** A line that fits the buffer with its terminator and holds no NUL. *)
Definition short_text (l : list ascii * bool) : Prop :=
  Forall plain (fst l) /\ ~ In NUL (fst l) /\
  Z.of_nat (length (fst l)) < DEFAULT_CMD_MAXLEN.

(** ** The earlier draft of the program

    The draft of [bash.c] kept beside the final file has the same
    [console_initialize] and [console_finalize]; its [console_run] has no
    command loop yet. *)
Module Draft.

Section Run.

Context {H : termios_h}.

Definition console_run (p_console : option console_t) (w : world)
  : option console_t * world :=
  match p_console with
  | None => (p_console, console_finalize p_console w)
  | Some _ =>
      let '(r, p_console, w) := console_initialize p_console w in
      if -1 =? r then (p_console, console_finalize p_console w)
      else (p_console, console_finalize p_console w)
  end.

Definition main (w : world) : Z * world :=
  let console := {| old_console := zero_termios; new_console := zero_termios;
                    pp_history := None; history_max := DEFAULT_HISTORY_MAXLEN |} in
  let '(_, w) := console_run (Some console) w in
  (0, w).

End Run.

End Draft.


(** * Properties *)

(** ** Integers, characters and arrays *)

Lemma size_incr_small (z : Z) : 0 <= z < DEFAULT_CMD_MAXLEN -> size_incr z = z + 1.
Proof.
  unfold size_incr, size_t_wrap, SIZE_MODULUS, DEFAULT_CMD_MAXLEN. intros Hz.
  apply Z.mod_small. lia.
Qed.

Lemma size_decr_small (z : Z) : 0 < z <= DEFAULT_CMD_MAXLEN -> size_decr z = z - 1.
Proof.
  unfold size_decr, size_t_wrap, SIZE_MODULUS, DEFAULT_CMD_MAXLEN. intros Hz.
  apply Z.mod_small. lia.
Qed.

(** The three case labels of [switch (c)], as tests on the byte. *)
Lemma case_ctrl_c (c : ascii) :
  (int_of_char c =? KEY_CTRL (int_of_char "c"%char)) = Ascii.eqb c ETX.
Proof. destruct c as [[] [] [] [] [] [] [] []]; reflexivity. Qed.

Lemma case_ctrl_d (c : ascii) :
  (int_of_char c =? KEY_CTRL (int_of_char "d"%char)) = Ascii.eqb c EOT.
Proof. destruct c as [[] [] [] [] [] [] [] []]; reflexivity. Qed.

Lemma case_enter (c : ascii) : (int_of_char c =? KEY_ENTER) = Ascii.eqb c CR.
Proof. destruct c as [[] [] [] [] [] [] [] []]; reflexivity. Qed.

Lemma plain_cases (c : ascii) :
  plain c ->
  (int_of_char c =? KEY_CTRL (int_of_char "c"%char)) = false /\
  (int_of_char c =? KEY_CTRL (int_of_char "d"%char)) = false /\
  (int_of_char c =? KEY_ENTER) = false.
Proof.
  intros (H3 & H4 & H13).
  rewrite case_ctrl_c, case_ctrl_d, case_enter.
  repeat split; apply Ascii.eqb_neq; assumption.
Qed.

Lemma plain_NUL : plain NUL.
Proof. repeat split; discriminate. Qed.

Lemma length_store_nat (p : list ascii) (i : nat) (v : ascii) :
  length (store_nat p i v) = length p.
Proof.
  revert i. induction p as [|h t IH]; intros [|j]; simpl; auto.
Qed.

Lemma length_store (p : list ascii) (i : Z) (v : ascii) :
  length (store p i v) = length p.
Proof.
  unfold store. destruct (i <? 0); auto using length_store_nat.
Qed.

Lemma nth_store_nat (p : list ascii) (i j : nat) (v : ascii) :
  (i < length p)%nat ->
  nth j (store_nat p i v) NUL = if Nat.eqb j i then v else nth j p NUL.
Proof.
  revert i j. induction p as [|h t IH]; intros i j Hi; simpl in Hi; [lia|].
  destruct i as [|i], j as [|j]; simpl; auto.
  apply IH. lia.
Qed.

Lemma load_store (p : list ascii) (i j : Z) (v : ascii) :
  0 <= i < Z.of_nat (length p) -> 0 <= j ->
  load (store p i v) j = if j =? i then v else load p j.
Proof.
  intros Hi Hj. unfold load, store.
  destruct (Z.ltb_spec i 0); [lia|].
  rewrite nth_store_nat by lia.
  destruct (Z.eqb_spec j i) as [->|Hne].
  - now rewrite Nat.eqb_refl.
  - destruct (Nat.eqb_spec (Z.to_nat j) (Z.to_nat i)); [lia | reflexivity].
Qed.

(** Storing just behind a prefix of the array. *)
Lemma store_nat_app (l r : list ascii) (v : ascii) :
  store_nat (l ++ r) (length l) v = l ++ store_nat r 0 v.
Proof. induction l as [|h t IH]; simpl; [reflexivity | now rewrite IH]. Qed.

Lemma store_after (l r : list ascii) (v : ascii) :
  r <> [] -> store (l ++ r) (Z.of_nat (length l)) v = (l ++ [v]) ++ tl r.
Proof.
  intros Hr. unfold store.
  destruct (Z.ltb_spec (Z.of_nat (length l)) 0); [lia|].
  rewrite Nat2Z.id, store_nat_app, <- app_assoc.
  destruct r; [contradiction | reflexivity].
Qed.

(** ** One pass of the loop *)

(** What a pass does with a byte of the [default:] case, whether [read]
    delivered it (return value 1) or left the NUL that [c] was reset to
    (return value 0, at the end of the stream). *)
Lemma get_cmd_iter_default (s r : Z) (c : ascii) (e : editor) (w w1 : world) :
  read NUL w = (r, c, w1) -> r <> -1 -> plain c ->
  get_cmd_iter s e w =
    if cmd_len e >=? DEFAULT_CMD_MAXLEN then Next e w1
    else Next (fst (insert_char c e w1)) (snd (insert_char c e w1)).
Proof.
  intros Hread Hr Hc. unfold get_cmd_iter. rewrite Hread.
  destruct (Z.eqb_spec r (-1)); [contradiction|].
  destruct (plain_cases c Hc) as (-> & -> & ->).
  destruct (cmd_len e >=? DEFAULT_CMD_MAXLEN); [reflexivity|].
  destruct (insert_char c e w1); reflexivity.
Qed.

Lemma read_key (c : ascii) (rest : list input_event) (w : world) :
  stdin w = Key c :: rest -> read NUL w = (1, c, set_stdin w rest).
Proof. intros Hw. unfold read. now rewrite Hw. Qed.

Lemma read_fail (rest : list input_event) (w : world) :
  stdin w = ReadFail :: rest -> read NUL w = (-1, NUL, set_stdin w rest).
Proof. intros Hw. unfold read. now rewrite Hw. Qed.

Lemma read_closed (w : world) : stdin w = [] -> read NUL w = (0, NUL, w).
Proof. intros Hw. unfold read. now rewrite Hw. Qed.

Lemma shift_loop_at_cursor (fuel : nat) (i : Z) (p : list ascii) :
  shift_loop fuel i i p = p.
Proof.
  destruct fuel; simpl; [reflexivity|].
  now rewrite Z.gtb_ltb, Z.ltb_irrefl.
Qed.

(** With the cursor at the end of the line the insertion is an append:
    nothing is shifted, nothing is printed again. *)
Lemma insert_char_at_end (c : ascii) (e : editor) (w : world) :
  cmd_idx e = cmd_len e -> 0 <= cmd_len e < DEFAULT_CMD_MAXLEN ->
  insert_char c e w =
    ({| p_cmd := store (p_cmd e) (cmd_len e) c;
        cmd_len := cmd_len e + 1; cmd_idx := cmd_len e + 1 |},
     printf [c] w).
Proof.
  intros Hidx Hlen. unfold insert_char. rewrite Hidx.
  rewrite shift_loop_at_cursor, size_incr_small by assumption.
  now rewrite Z.sub_diag.
Qed.

(** ** Typing a run of bytes *)

Lemma capacity_eq : Z.of_nat capacity = DEFAULT_CMD_MAXLEN.
Proof. reflexivity. Qed.

Lemma editor_init_editing (buf : list ascii) : editor_init buf = editing [] buf.
Proof. reflexivity. Qed.

Lemma get_cmd_iter_editing (s r : Z) (c : ascii) (line pad : list ascii)
    (w w1 : world) :
  read NUL w = (r, c, w1) -> r <> -1 -> plain c ->
  length (line ++ pad) = capacity ->
  get_cmd_iter s (editing line pad) w =
    match pad with
    | [] => Next (editing line pad) w1
    | _ :: pad' => Next (editing (line ++ [c]) pad') (printf [c] w1)
    end.
Proof.
  intros Hread Hr Hc Hlen.
  rewrite (get_cmd_iter_default s r c _ w w1) by assumption.
  rewrite length_app in Hlen. pose proof capacity_eq as Hcap.
  change (cmd_len (editing line pad)) with (Z.of_nat (length line)).
  destruct pad as [|x pad']; simpl in Hlen.
  - destruct (Z.geb_spec (Z.of_nat (length line)) DEFAULT_CMD_MAXLEN); [reflexivity | lia].
  - destruct (Z.geb_spec (Z.of_nat (length line)) DEFAULT_CMD_MAXLEN); [lia|].
    rewrite insert_char_at_end by (cbn [editing cmd_len cmd_idx]; lia).
    cbn [fst snd editing cmd_len cmd_idx p_cmd].
    rewrite store_after by discriminate.
    unfold editing. rewrite length_app. cbn [tl length].
    do 2 f_equal; lia.
Qed.

Lemma world_eta (w : world) :
  {| tty := tty w; stdin := stdin w; stdout := stdout w |} = w.
Proof. now destruct w. Qed.

(** Bytes of the [default:] case are appended while the array has room
    and dropped afterwards. *)
Lemma get_cmd_after_type (bs : list ascii) :
  forall (line pad : list ascii) (rest : list input_event) (w : world),
    Forall plain bs -> length (line ++ pad) = capacity ->
    stdin w = keys bs ++ rest ->
    get_cmd_after (length bs) (editing line pad) w =
      Some (editing (line ++ firstn (length pad) bs)
                    (skipn (length (firstn (length pad) bs)) pad),
            {| tty := tty w; stdin := rest;
               stdout := stdout w ++ firstn (length pad) bs |}).
Proof.
  induction bs as [|c bs IH]; intros line pad rest w Hbs Hlen Hw.
  - rewrite firstn_nil, !app_nil_r. simpl in Hw |- *.
    now rewrite <- Hw, world_eta.
  - inversion Hbs as [|? ? Hc Hbs']; subst.
    cbn [length get_cmd_after].
    rewrite (get_cmd_iter_editing (-1) 1 c line pad w (set_stdin w (keys bs ++ rest)));
      [ | now apply read_key | discriminate | assumption | assumption ].
    destruct pad as [|x pad'].
    + rewrite (IH line [] rest) by (assumption || reflexivity).
      reflexivity.
    + rewrite (IH (line ++ [c]) pad' rest);
        [ | assumption | rewrite !length_app in *; cbn [length] in *; lia | reflexivity ].
      cbn [length firstn skipn printf set_stdin tty stdin stdout].
      now rewrite <- !app_assoc.
Qed.

(** At the end of the stream [read] returns 0 and [c] keeps the NUL it
    was reset to: the pass appends that NUL like any byte, and the loop
    goes round again with the stream still closed. *)
Lemma get_cmd_after_closed (n : nat) :
  forall (line pad : list ascii) (w : world),
    length (line ++ pad) = capacity -> stdin w = [] ->
    get_cmd_after n (editing line pad) w =
      Some (editing (line ++ repeat NUL (Nat.min n (length pad)))
                    (skipn (Nat.min n (length pad)) pad),
            printf (repeat NUL (Nat.min n (length pad))) w).
Proof.
  induction n as [|n IH]; intros line pad w Hlen Hw.
  - cbn [Nat.min repeat skipn get_cmd_after]. rewrite app_nil_r.
    unfold printf. now rewrite app_nil_r, world_eta.
  - cbn [get_cmd_after].
    rewrite (get_cmd_iter_editing (-1) 0 NUL line pad w w);
      [ | now apply read_closed | discriminate | exact plain_NUL | assumption ].
    destruct pad as [|x pad'].
    + rewrite (IH line [] w) by assumption.
      rewrite !Nat.min_0_r. reflexivity.
    + rewrite (IH (line ++ [NUL]) pad');
        [ | rewrite !length_app in *; cbn [length] in *; lia | exact Hw ].
      cbn [length Nat.min repeat skipn].
      unfold printf; cbn [tty stdin stdout].
      now rewrite <- !app_assoc.
Qed.

(** ** The loop as a whole *)

Lemma get_cmd_loop_after (n : nat) :
  forall (k : nat) (e e' : editor) (w w' : world),
    get_cmd_after n e w = Some (e', w') ->
    get_cmd_loop (n + k) (-1) e w = get_cmd_loop k (-1) e' w'.
Proof.
  induction n as [|n IH]; intros k e e' w w' Hn; simpl in Hn |- *.
  - now inversion Hn.
  - destruct (get_cmd_iter (-1) e w) as [e1 w1|]; [|discriminate].
    now apply IH.
Qed.

Lemma get_cmd_loop_still_running (n : nat) :
  forall (e : editor) (w : world),
    get_cmd_after n e w <> None -> get_cmd_loop n (-1) e w = None.
Proof.
  induction n as [|n IH]; intros e w Hn; simpl in Hn |- *; [reflexivity|].
  destruct (get_cmd_iter (-1) e w) as [e1 w1|]; [|contradiction].
  now apply IH.
Qed.

(** ** Invariants of the loop *)

Lemma aligned_init (buf : list ascii) : aligned (editor_init buf).
Proof. unfold aligned, DEFAULT_CMD_MAXLEN. simpl. lia. Qed.

(** A pass that goes round again has met a byte of the [default:] case. *)
Lemma get_cmd_iter_next (s : Z) (e e' : editor) (w w' : world) :
  get_cmd_iter s e w = Next e' w' ->
  exists r c w1, read NUL w = (r, c, w1) /\ r <> -1 /\ plain c.
Proof.
  unfold get_cmd_iter.
  destruct (read NUL w) as [[r c] w1].
  rewrite case_ctrl_c, case_ctrl_d, case_enter.
  destruct (Z.eqb_spec r (-1)); [discriminate|].
  destruct (Ascii.eqb_spec c ETX); [discriminate|].
  destruct (Ascii.eqb_spec c EOT); [discriminate|].
  destruct (Ascii.eqb_spec c CR); [discriminate|].
  intros _. exists r, c, w1. repeat split; assumption.
Qed.

(** Leaving through [EXIT] does not touch the buffer or the indices. *)
Lemma get_cmd_iter_exit (s s' : Z) (e e' : editor) (w w' : world) :
  get_cmd_iter s e w = Exit s' e' w' -> e' = e.
Proof.
  unfold get_cmd_iter.
  destruct (read NUL w) as [[r c] w1].
  repeat match goal with
         | |- context [if ?b then _ else _] => destruct b
         end;
    try destruct (insert_char c e w1); intros Heq; now inversion Heq.
Qed.

Lemma get_cmd_iter_aligned (s : Z) (e e' : editor) (w w' : world) :
  aligned e -> get_cmd_iter s e w = Next e' w' ->
  aligned e' /\ length (p_cmd e') = length (p_cmd e).
Proof.
  intros [Hidx Hlen] Hnext.
  destruct (get_cmd_iter_next _ _ _ _ _ Hnext) as (r & c & w1 & Hread & Hr & Hc).
  rewrite (get_cmd_iter_default s r c e w w1) in Hnext by assumption.
  destruct (Z.geb_spec (cmd_len e) DEFAULT_CMD_MAXLEN).
  - inversion Hnext; subst. now repeat split.
  - rewrite insert_char_at_end in Hnext by lia.
    inversion Hnext; subst; cbn [fst p_cmd cmd_len cmd_idx].
    unfold aligned; cbn [p_cmd cmd_len cmd_idx].
    rewrite length_store. repeat split; lia.
Qed.

Lemma get_cmd_after_aligned (n : nat) :
  forall (e e' : editor) (w w' : world),
    aligned e -> get_cmd_after n e w = Some (e', w') ->
    aligned e' /\ length (p_cmd e') = length (p_cmd e).
Proof.
  induction n as [|n IH]; intros e e' w w' He Hn; simpl in Hn.
  - inversion Hn; subst. now split.
  - destruct (get_cmd_iter (-1) e w) as [e1 w1|] eqn:Hiter; [|discriminate].
    destruct (get_cmd_iter_aligned _ _ _ _ _ He Hiter) as [He1 Hl1].
    destruct (IH _ _ _ _ He1 Hn) as [He' Hl']. split; [assumption | congruence].
Qed.

Lemma get_cmd_loop_aligned (fuel : nat) :
  forall (s : Z) (e e' : editor) (w w' : world),
    aligned e -> get_cmd_loop fuel (-1) e w = Some (s, e', w') ->
    aligned e' /\ length (p_cmd e') = length (p_cmd e).
Proof.
  induction fuel as [|fuel IH]; intros s e e' w w' He Hl; simpl in Hl; [discriminate|].
  destruct (get_cmd_iter (-1) e w) as [e1 w1|s1 e1 w1] eqn:Hiter.
  - destruct (get_cmd_iter_aligned _ _ _ _ _ He Hiter) as [He1 Hl1].
    destruct (IH _ _ _ _ _ He1 Hl) as [He' Hl']. split; [assumption | congruence].
  - inversion Hl; subst. apply get_cmd_iter_exit in Hiter. subst. now split.
Qed.

(** Every index [get_cmd] uses on [p_cmd] lies inside the array: with the
    cursor at the end of the line the shift loop makes no access, and the
    one store is at [cmd_idx], below the bound just checked. *)
Lemma get_cmd_accesses_in_bounds (n : nat) (buf : list ascii) (e : editor) (w w' : world) :
  Z.of_nat (length buf) = DEFAULT_CMD_MAXLEN ->
  get_cmd_after n (editor_init buf) w = Some (e, w') ->
  cmd_len e < DEFAULT_CMD_MAXLEN ->
  0 <= cmd_idx e < Z.of_nat (length (p_cmd e)).
Proof.
  intros Hbuf Hn Hroom.
  destruct (get_cmd_after_aligned n _ _ _ _ (aligned_init buf) Hn) as [[Hidx Hlen] Hl].
  rewrite Hl. cbn [editor_init p_cmd]. lia.
Qed.

(** ** The shift loop *)

Lemma length_shift_loop (fuel : nat) :
  forall (i idx : Z) (p : list ascii), length (shift_loop fuel i idx p) = length p.
Proof.
  induction fuel as [|fuel IH]; intros i idx p; simpl; [reflexivity|].
  destruct (i >? idx); [|reflexivity].
  now rewrite IH, length_store.
Qed.

(** After the loop every cell in [(idx, i]] holds what its left neighbour
    held before, and every other cell is as it was. *)
Lemma load_shift_loop (fuel : nat) :
  forall (i idx : Z) (p : list ascii) (j : Z),
    0 <= idx <= i -> i < Z.of_nat (length p) -> i <= DEFAULT_CMD_MAXLEN ->
    (Z.to_nat (i - idx) <= fuel)%nat -> 0 <= j ->
    load (shift_loop fuel i idx p) j =
      if (idx <? j) && (j <=? i) then load p (j - 1) else load p j.
Proof.
  induction fuel as [|fuel IH]; intros i idx p j Hidx Hi Hmax Hfuel Hj; simpl.
  - assert (i = idx) by lia. subst.
    destruct (Z.ltb_spec idx j), (Z.leb_spec j idx); simpl; try reflexivity; lia.
  - destruct (Z.gtb_spec i idx) as [Hgt|Hle].
    + rewrite size_decr_small by lia.
      rewrite IH by (rewrite ?length_store; lia).
      destruct (Z.ltb_spec idx j), (Z.leb_spec j (i - 1)), (Z.leb_spec j i);
        cbn [andb]; try lia; rewrite load_store by lia;
        match goal with
        | |- context [?a =? ?b] => destruct (Z.eqb_spec a b)
        end; subst; try reflexivity; lia.
    + assert (i = idx) by lia. subst.
      destruct (Z.ltb_spec idx j), (Z.leb_spec j idx); simpl; try reflexivity; lia.
Qed.

(** ** Leaving the loop *)

Lemma get_cmd_iter_ctrl_c (s : Z) (e : editor) (w : world) (rest : list input_event) :
  stdin w = Key ETX :: rest ->
  get_cmd_iter s e w = Exit 1 e (printf (lit "^C") (set_stdin w rest)).
Proof. intros Hw. unfold get_cmd_iter, read. now rewrite Hw. Qed.

Lemma get_cmd_iter_ctrl_d (s : Z) (e : editor) (w : world) (rest : list input_event) :
  stdin w = Key EOT :: rest -> get_cmd_iter s e w = Exit s e (set_stdin w rest).
Proof. intros Hw. unfold get_cmd_iter, read. now rewrite Hw. Qed.

Lemma get_cmd_iter_enter (s : Z) (e : editor) (w : world) (rest : list input_event) :
  stdin w = Key CR :: rest -> get_cmd_iter s e w = Exit 0 e (set_stdin w rest).
Proof. intros Hw. unfold get_cmd_iter, read. now rewrite Hw. Qed.

Lemma get_cmd_iter_fail (s : Z) (e : editor) (w : world) (rest : list input_event) :
  stdin w = ReadFail :: rest -> get_cmd_iter s e w = Exit s e (set_stdin w rest).
Proof. intros Hw. unfold get_cmd_iter, read. now rewrite Hw. Qed.

Lemma get_cmd_loop_exit_after (n fuel : nat) (s : Z) (e e1 e2 : editor) (w w1 w2 : world) :
  get_cmd_after n e w = Some (e1, w1) ->
  get_cmd_iter (-1) e1 w1 = Exit s e2 w2 ->
  (n < fuel)%nat ->
  get_cmd_loop fuel (-1) e w = Some (s, e2, w2).
Proof.
  intros Hn Hexit Hfuel.
  replace fuel with (n + S (fuel - S n))%nat by lia.
  rewrite (get_cmd_loop_after n _ _ _ _ _ Hn). simpl. now rewrite Hexit.
Qed.

Lemma buffer_capacity (buf : list ascii) :
  Z.of_nat (length buf) = DEFAULT_CMD_MAXLEN -> length ([] ++ buf) = capacity.
Proof. unfold capacity, DEFAULT_CMD_MAXLEN. simpl. lia. Qed.

(** Typing [bs] and then meeting an event on which the pass leaves. *)
Lemma get_cmd_loop_typed (bs buf : list ascii) (ev : input_event)
    (rest : list input_event) (w : world) (w2 : world -> world) (s : Z)
    (fuel : nat) :
  Forall plain bs -> Z.of_nat (length buf) = DEFAULT_CMD_MAXLEN ->
  stdin w = keys bs ++ ev :: rest ->
  (forall e w1, stdin w1 = ev :: rest ->
     get_cmd_iter (-1) e w1 = Exit s e (w2 w1)) ->
  (length bs < fuel)%nat ->
  get_cmd_loop fuel (-1) (editor_init buf) w =
    Some (s,
          {| p_cmd := typed_into buf bs;
             cmd_len := Z.of_nat (length (firstn (length buf) bs));
             cmd_idx := Z.of_nat (length (firstn (length buf) bs)) |},
          w2 {| tty := tty w; stdin := ev :: rest;
                stdout := stdout w ++ firstn (length buf) bs |}).
Proof.
  intros Hbs Hbuf Hw Hexit Hfuel.
  apply (get_cmd_loop_exit_after (length bs) fuel s _
           (editing ([] ++ firstn (length buf) bs)
                    (skipn (length (firstn (length buf) bs)) buf))
           _ w {| tty := tty w; stdin := ev :: rest;
                  stdout := stdout w ++ firstn (length buf) bs |});
    [ | | assumption ].
  - rewrite editor_init_editing.
    apply get_cmd_after_type; auto using buffer_capacity.
  - apply Hexit. reflexivity.
Qed.

(** ** The line that [get_cmd] returns *)

(** C1, counterexample: 1025 letters and a carriage return.  [get_cmd]
    returns 0, but the buffer holds 1024 letters and [cmd_len] is 1024:
    no prefix of the buffer is the input. *)
Lemma get_cmd_truncates_long_line :
  let input := repeat "a"%char 1025 in
  Forall plain input /\
  get_cmd_loop 1026 (-1) (editor_init zeroed) (pipe (keys input ++ [Key CR])) =
    Some (0,
          {| p_cmd := repeat "a"%char 1024; cmd_len := 1024; cmd_idx := 1024 |},
          {| tty := None; stdin := []; stdout := repeat "a"%char 1024 |}) /\
  get_cmd 1026 (Some main_console) (Some zeroed) (pipe (keys input ++ [Key CR])) =
    Some (0, Some (repeat "a"%char 1024),
          {| tty := None; stdin := []; stdout := repeat "a"%char 1024 |}) /\
  (forall n : nat, firstn n (repeat "a"%char 1024) <> input).
Proof.
  intros input. split; [|split; [|split]].
  - apply Forall_forall. intros c Hc. apply repeat_spec in Hc. subst c.
    repeat split; discriminate.
  - vm_compute. reflexivity.
  - vm_compute. reflexivity.
  - intros n Heq. apply (f_equal (@length ascii)) in Heq. unfold input in Heq.
    rewrite length_firstn, !repeat_length in Heq. lia.
Qed.

(** C1 (amended): for every sequence of at most 1024 bytes, none of them
    0x03, 0x04 or 13, followed by the carriage return 13, [get_cmd]
    returns status 0; the buffer then starts with exactly the sequence,
    [cmd_len] is its length, every byte has been echoed once, and the input
    behind the carriage return is left unread. *)
Theorem get_cmd_round_trip (bs buf : list ascii) (con : console_t)
    (rest : list input_event) (w : world) (fuel : nat) :
  Forall plain bs ->
  Z.of_nat (length bs) <= DEFAULT_CMD_MAXLEN ->
  Z.of_nat (length buf) = DEFAULT_CMD_MAXLEN ->
  stdin w = keys bs ++ Key CR :: rest ->
  (length bs < fuel)%nat ->
  get_cmd_loop fuel (-1) (editor_init buf) w =
    Some (0,
          {| p_cmd := bs ++ skipn (length bs) buf;
             cmd_len := Z.of_nat (length bs);
             cmd_idx := Z.of_nat (length bs) |},
          {| tty := tty w; stdin := rest; stdout := stdout w ++ bs |}) /\
  get_cmd fuel (Some con) (Some buf) w =
    Some (0, Some (bs ++ skipn (length bs) buf),
          {| tty := tty w; stdin := rest; stdout := stdout w ++ bs |}).
Proof.
  intros Hbs Hshort Hbuf Hw Hfuel.
  assert (Hloop := get_cmd_loop_typed bs buf (Key CR) rest w
                     (fun w1 => set_stdin w1 rest) 0 fuel Hbs Hbuf Hw
                     (fun e w1 H1 => get_cmd_iter_enter (-1) e w1 rest H1) Hfuel).
  unfold typed_into in Hloop.
  rewrite firstn_all2 in Hloop by lia.
  split; [exact Hloop|].
  unfold get_cmd. now rewrite Hloop.
Qed.

Lemma get_cmd_round_trip_witness :
  get_cmd 3 (Some main_console) (Some zeroed) (pipe (keys (lit "ls") ++ [Key CR])) =
    Some (0, Some (lit "ls" ++ skipn 2 zeroed),
          {| tty := None; stdin := []; stdout := lit "ls" |}).
Proof.
  apply (get_cmd_round_trip (lit "ls") zeroed main_console []
           (pipe (keys (lit "ls") ++ [Key CR])) 3).
  - repeat constructor; discriminate.
  - vm_compute. discriminate.
  - reflexivity.
  - reflexivity.
  - simpl. lia.
Defined.

Lemma get_cmd_of_loop (fuel : nat) (con : console_t) (buf : list ascii)
    (w w' : world) (s : Z) (e : editor) :
  get_cmd_loop fuel (-1) (editor_init buf) w = Some (s, e, w') ->
  get_cmd fuel (Some con) (Some buf) w = Some (s, Some (p_cmd e), w').
Proof. intros Hloop. unfold get_cmd. now rewrite Hloop. Qed.

(** ** The end of the input stream *)

Lemma get_cmd_loop_fuel_mono (fuel k : nat) :
  forall (s : Z) (e : editor) (w : world),
    get_cmd_loop (fuel + k) s e w = None -> get_cmd_loop fuel s e w = None.
Proof.
  induction fuel as [|fuel IH]; intros s e w Hk; simpl in Hk |- *; [reflexivity|].
  destruct (get_cmd_iter s e w) as [e1 w1|]; [now apply IH | discriminate].
Qed.

Lemma get_cmd_loop_closed (fuel : nat) (line pad : list ascii) (w : world) :
  length (line ++ pad) = capacity -> stdin w = [] ->
  get_cmd_loop fuel (-1) (editing line pad) w = None.
Proof.
  intros Hlen Hw. apply get_cmd_loop_still_running.
  now rewrite get_cmd_after_closed.
Qed.

(** C2: a finite input without terminator, interrupt or end-of-input byte,
    followed by closure of the stream, should make [get_cmd] return -1.
    It does not: [read] returns 0 at the end of the stream, only -1 is
    tested, and the NUL left in [c] goes through the [default:] case on
    every pass.  Whatever the fuel, the loop is still running. *)
Theorem get_cmd_spins_on_closed_stream (bs buf : list ascii) (con : console_t)
    (w : world) :
  Forall plain bs ->
  Z.of_nat (length buf) = DEFAULT_CMD_MAXLEN ->
  stdin w = keys bs ->
  forall fuel : nat, get_cmd fuel (Some con) (Some buf) w = None.
Proof.
  intros Hbs Hbuf Hw fuel.
  assert (Hloop : get_cmd_loop fuel (-1) (editor_init buf) w = None).
  { apply (get_cmd_loop_fuel_mono fuel (length bs)).
    rewrite Nat.add_comm, editor_init_editing.
    rewrite (get_cmd_loop_after (length bs) fuel _ _ _ _
               (get_cmd_after_type bs [] buf [] w Hbs (buffer_capacity buf Hbuf)
                  (eq_trans Hw (eq_sym (app_nil_r _))))).
    apply get_cmd_loop_closed; [|reflexivity].
    rewrite <- (buffer_capacity buf Hbuf). cbn [app].
    rewrite !length_app, length_skipn, length_firstn. lia. }
  unfold get_cmd. now rewrite Hloop.
Qed.

Lemma get_cmd_spins_on_closed_stream_witness :
  get_cmd 3000 (Some main_console) (Some zeroed) (pipe (keys (lit "ls"))) = None.
Proof.
  apply (get_cmd_spins_on_closed_stream (lit "ls") zeroed main_console
           (pipe (keys (lit "ls")))).
  - repeat constructor; discriminate.
  - reflexivity.
  - reflexivity.
Defined.

(** While the stream is closed the passes fill the rest of the array with
    NUL bytes and echo each of them. *)
Example closed_stream_fills_buffer :
  get_cmd_after 5 (editor_init (repeat "x"%char 1024)) (pipe (keys (lit "ls"))) =
    Some ({| p_cmd := lit "ls" ++ repeat NUL 3 ++ repeat "x"%char 1019;
             cmd_len := 5; cmd_idx := 5 |},
          {| tty := None; stdin := []; stdout := lit "ls" ++ repeat NUL 3 |}).
Proof. vm_compute. reflexivity. Qed.

(** ** Interrupt and end of input *)

Lemma memset_full (buf : list ascii) :
  Z.of_nat (length buf) = DEFAULT_CMD_MAXLEN ->
  memset buf NUL DEFAULT_CMD_MAXLEN = zeroed.
Proof.
  intros Hbuf. unfold memset, zeroed.
  rewrite skipn_all2 by lia. apply app_nil_r.
Qed.

Lemma length_typed_into (buf bs : list ascii) :
  length (typed_into buf bs) = length buf.
Proof.
  unfold typed_into. rewrite length_app, length_skipn, length_firstn. lia.
Qed.

(** The main loop clears the whole array before it calls [get_cmd]: what
    an earlier call left there does not reach the next one. *)
Lemma console_turn_clears (fuel : nat) (p_console : option console_t)
    (prompt_c : ascii) (buf : list ascii) (w : world) :
  Z.of_nat (length buf) = DEFAULT_CMD_MAXLEN ->
  console_turn fuel p_console prompt_c buf w =
  console_turn fuel p_console prompt_c zeroed w.
Proof.
  intros Hbuf. unfold console_turn.
  rewrite (memset_full buf Hbuf), (memset_full zeroed); reflexivity.
Qed.

(** C3, counterexample: after "lsX" and Ctrl-C, [get_cmd] returns 1 and
    the caller's buffer still holds the string "lsX". *)
Lemma get_cmd_cancel_leaves_typed_bytes :
  get_cmd 4 (Some main_console) (Some zeroed) (pipe (keys (lit "lsX") ++ [Key ETX])) =
    Some (1, Some (lit "lsX" ++ repeat NUL 1021),
          {| tty := None; stdin := []; stdout := lit "lsX^C" |}) /\
  c_string (lit "lsX" ++ repeat NUL 1021) = Some (lit "lsX") /\
  lit "lsX" ++ repeat NUL 1021 <> zeroed.
Proof.
  split; [|split].
  - vm_compute. reflexivity.
  - vm_compute. reflexivity.
  - discriminate.
Qed.

(** C3 (amended): for every input prefix of bytes other than 0x03, 0x04
    and 13, when the next byte read is 0x03, [get_cmd] echoes ^C and
    returns status 1 at once.  The bytes typed before stay in the caller's
    buffer (the first 1024 of them, which is all that was stored); they
    are dropped when the main loop clears the array at the start of its
    next pass, which runs as it would from a zeroed array. *)
Theorem get_cmd_cancel (bs buf : list ascii) (con : console_t)
    (rest : list input_event) (w : world) (fuel : nat) :
  Forall plain bs ->
  Z.of_nat (length buf) = DEFAULT_CMD_MAXLEN ->
  stdin w = keys bs ++ Key ETX :: rest ->
  (length bs < fuel)%nat ->
  get_cmd fuel (Some con) (Some buf) w =
    Some (1,
          Some (firstn (length buf) bs ++ skipn (length (firstn (length buf) bs)) buf),
          {| tty := tty w; stdin := rest;
             stdout := (stdout w ++ firstn (length buf) bs) ++ lit "^C" |}) /\
  (forall (k : nat) (prompt_c : ascii) (w0 : world),
     console_turn k (Some con) prompt_c
       (firstn (length buf) bs ++ skipn (length (firstn (length buf) bs)) buf) w0 =
     console_turn k (Some con) prompt_c zeroed w0).
Proof.
  intros Hbs Hbuf Hw Hfuel. split.
  - apply (get_cmd_of_loop fuel con buf w _ 1
             {| p_cmd := typed_into buf bs;
                cmd_len := Z.of_nat (length (firstn (length buf) bs));
                cmd_idx := Z.of_nat (length (firstn (length buf) bs)) |}).
    apply (get_cmd_loop_typed bs buf (Key ETX) rest w
             (fun w1 => printf (lit "^C") (set_stdin w1 rest)) 1 fuel Hbs Hbuf Hw);
      [|assumption].
    intros e w1 H1. now apply get_cmd_iter_ctrl_c.
  - intros k prompt_c w0. apply console_turn_clears.
    fold (typed_into buf bs). now rewrite length_typed_into.
Qed.

Lemma get_cmd_cancel_witness :
  get_cmd 4 (Some main_console) (Some zeroed) (pipe (keys (lit "lsX") ++ [Key ETX])) =
    Some (1,
          Some (firstn (length zeroed) (lit "lsX")
                  ++ skipn (length (firstn (length zeroed) (lit "lsX"))) zeroed),
          {| tty := None; stdin := [];
             stdout := ([] ++ firstn (length zeroed) (lit "lsX")) ++ lit "^C" |}).
Proof.
  apply (get_cmd_cancel (lit "lsX") zeroed main_console []
           (pipe (keys (lit "lsX") ++ [Key ETX])) 4).
  - repeat constructor; discriminate.
  - reflexivity.
  - reflexivity.
  - simpl. lia.
Defined.

(** C5, counterexample: Ctrl-D as the first byte and a failing [read]
    give the same result, status -1 included. *)
Lemma ctrl_d_returns_the_error_status :
  get_cmd 1 (Some main_console) (Some zeroed) (pipe [Key EOT]) =
    Some (-1, Some zeroed, pipe []) /\
  get_cmd 1 (Some main_console) (Some zeroed) (pipe [ReadFail]) =
    Some (-1, Some zeroed, pipe []).
Proof. split; vm_compute; reflexivity. Qed.

(** C5 (amended): when the byte read is 0x04, [get_cmd] returns at once
    with status -1, nothing echoed and the buffer as typed so far (with
    [cmd_len] 0 and the buffer untouched when Ctrl-D is the first byte).
    A failing [read] at the same place returns the same status -1 and the
    same buffer: the status does not tell the two apart. *)
Theorem get_cmd_end_of_input (bs buf : list ascii) (con : console_t)
    (ev : input_event) (rest : list input_event) (w : world) (fuel : nat) :
  Forall plain bs ->
  Z.of_nat (length buf) = DEFAULT_CMD_MAXLEN ->
  ev = Key EOT \/ ev = ReadFail ->
  stdin w = keys bs ++ ev :: rest ->
  (length bs < fuel)%nat ->
  get_cmd_loop fuel (-1) (editor_init buf) w =
    Some (-1,
          {| p_cmd := firstn (length buf) bs
                        ++ skipn (length (firstn (length buf) bs)) buf;
             cmd_len := Z.of_nat (length (firstn (length buf) bs));
             cmd_idx := Z.of_nat (length (firstn (length buf) bs)) |},
          {| tty := tty w; stdin := rest;
             stdout := stdout w ++ firstn (length buf) bs |}) /\
  get_cmd fuel (Some con) (Some buf) w =
    Some (-1,
          Some (firstn (length buf) bs ++ skipn (length (firstn (length buf) bs)) buf),
          {| tty := tty w; stdin := rest;
             stdout := stdout w ++ firstn (length buf) bs |}).
Proof.
  intros Hbs Hbuf Hev Hw Hfuel.
  assert (Hloop := get_cmd_loop_typed bs buf ev rest w
                     (fun w1 => set_stdin w1 rest) (-1) fuel Hbs Hbuf Hw).
  unfold typed_into in Hloop.
  split.
  - apply Hloop; [|assumption].
    intros e w1 H1. destruct Hev; subst ev.
    + now apply get_cmd_iter_ctrl_d.
    + now apply get_cmd_iter_fail.
  - unfold get_cmd. rewrite Hloop; [reflexivity | | assumption].
    intros e w1 H1. destruct Hev; subst ev.
    + now apply get_cmd_iter_ctrl_d.
    + now apply get_cmd_iter_fail.
Qed.

Lemma get_cmd_end_of_input_witness :
  get_cmd_loop 1 (-1) (editor_init zeroed) (pipe [Key EOT]) =
    Some (-1, {| p_cmd := zeroed; cmd_len := 0; cmd_idx := 0 |},
          {| tty := None; stdin := []; stdout := [] |}) /\
  get_cmd 1 (Some main_console) (Some zeroed) (pipe [Key EOT]) =
    Some (-1, Some zeroed, {| tty := None; stdin := []; stdout := [] |}).
Proof.
  apply (get_cmd_end_of_input [] zeroed main_console (Key EOT) [] (pipe [Key EOT]) 1).
  - constructor.
  - reflexivity.
  - left. reflexivity.
  - reflexivity.
  - simpl. lia.
Defined.

(** ** Bounds of the buffer *)

Lemma get_cmd_iter_full (s : Z) (c : ascii) (e : editor) (w : world)
    (rest : list input_event) :
  plain c -> cmd_len e >= DEFAULT_CMD_MAXLEN -> stdin w = Key c :: rest ->
  get_cmd_iter s e w = Next e (set_stdin w rest).
Proof.
  intros Hc Hfull Hw.
  rewrite (get_cmd_iter_default s 1 c e w (set_stdin w rest));
    [ | now apply read_key | discriminate | assumption ].
  destruct (Z.geb_spec (cmd_len e) DEFAULT_CMD_MAXLEN); [reflexivity | lia].
Qed.

(** C4: at the top of every pass of the loop, whatever the input was,
    0 <= cmd_idx <= cmd_len <= 1024 and the array still has its 1024
    cells.  When cmd_len is 1024 a byte of the [default:] case is consumed
    and nothing else happens: same buffer, same indices, nothing written,
    and the loop goes on.  So when [get_cmd] returns, in whatever way, the
    line it leaves has at most 1024 bytes. *)
Theorem get_cmd_bounds (n : nat) (buf : list ascii) (w w' : world) (e : editor) :
  Z.of_nat (length buf) = DEFAULT_CMD_MAXLEN ->
  get_cmd_after n (editor_init buf) w = Some (e, w') ->
  0 <= cmd_idx e <= cmd_len e /\
  cmd_len e <= DEFAULT_CMD_MAXLEN /\
  Z.of_nat (length (p_cmd e)) = DEFAULT_CMD_MAXLEN /\
  (forall (c : ascii) (rest : list input_event),
     plain c -> cmd_len e = DEFAULT_CMD_MAXLEN -> stdin w' = Key c :: rest ->
     get_cmd_iter (-1) e w' = Next e (set_stdin w' rest) /\
     stdout (set_stdin w' rest) = stdout w') /\
  (forall (fuel : nat) (s : Z) (e' : editor) (w'' : world),
     get_cmd_loop fuel (-1) e w' = Some (s, e', w'') ->
     0 <= cmd_idx e' <= cmd_len e' /\ cmd_len e' <= DEFAULT_CMD_MAXLEN /\
     Z.of_nat (length (p_cmd e')) = DEFAULT_CMD_MAXLEN).
Proof.
  intros Hbuf Hn.
  destruct (get_cmd_after_aligned n _ _ _ _ (aligned_init buf) Hn) as [He Hl].
  cbn [editor_init p_cmd] in Hl.
  pose proof He as [Hidx Hlen].
  split; [lia|]. split; [lia|]. split; [lia|]. split.
  - intros c rest Hc Hfull Hw'. split; [|reflexivity].
    apply (get_cmd_iter_full (-1) c); [assumption | lia | assumption].
  - intros fuel s e' w'' Hloop.
    destruct (get_cmd_loop_aligned fuel _ _ _ _ _ He Hloop) as [[Hidx' Hlen'] Hl'].
    repeat split; lia.
Qed.

Lemma get_cmd_bounds_witness :
  let e := {| p_cmd := repeat "a"%char 1024; cmd_len := 1024; cmd_idx := 1024 |} in
  let w' := {| tty := None; stdin := [Key "a"%char; Key CR];
               stdout := repeat "a"%char 1024 |} in
  0 <= cmd_idx e <= cmd_len e /\
  cmd_len e <= DEFAULT_CMD_MAXLEN /\
  Z.of_nat (length (p_cmd e)) = DEFAULT_CMD_MAXLEN /\
  (forall (c : ascii) (rest : list input_event),
     plain c -> cmd_len e = DEFAULT_CMD_MAXLEN -> stdin w' = Key c :: rest ->
     get_cmd_iter (-1) e w' = Next e (set_stdin w' rest) /\
     stdout (set_stdin w' rest) = stdout w') /\
  (forall (fuel : nat) (s : Z) (e' : editor) (w'' : world),
     get_cmd_loop fuel (-1) e w' = Some (s, e', w'') ->
     0 <= cmd_idx e' <= cmd_len e' /\ cmd_len e' <= DEFAULT_CMD_MAXLEN /\
     Z.of_nat (length (p_cmd e')) = DEFAULT_CMD_MAXLEN).
Proof.
  intros e w'.
  apply (get_cmd_bounds 1024 zeroed
           (pipe (keys (repeat "a"%char 1025) ++ [Key CR])) w' e).
  - reflexivity.
  - vm_compute. reflexivity.
Defined.

(** ** The cursor *)

(** C9: at the top of every pass of the loop cmd_idx equals cmd_len.  The
    shift loop therefore leaves the buffer as it is, whatever its fuel,
    and an insertion stores the byte at index cmd_len, echoes it and does
    nothing else: an append. *)
Theorem get_cmd_cursor_at_end (n : nat) (buf : list ascii) (w w' : world) (e : editor) :
  get_cmd_after n (editor_init buf) w = Some (e, w') ->
  cmd_idx e = cmd_len e /\
  (forall fuel : nat, shift_loop fuel (cmd_len e) (cmd_idx e) (p_cmd e) = p_cmd e) /\
  (forall (c : ascii) (w1 : world),
     cmd_len e < DEFAULT_CMD_MAXLEN ->
     insert_char c e w1 =
       ({| p_cmd := store (p_cmd e) (cmd_len e) c;
           cmd_len := cmd_len e + 1; cmd_idx := cmd_len e + 1 |},
        printf [c] w1)).
Proof.
  intros Hn.
  destruct (get_cmd_after_aligned n _ _ _ _ (aligned_init buf) Hn) as [[Hidx Hlen] _].
  split; [assumption|]. split.
  - intros fuel. rewrite Hidx. apply shift_loop_at_cursor.
  - intros c w1 Hroom. apply insert_char_at_end; [assumption | lia].
Qed.

Lemma get_cmd_cursor_at_end_witness :
  let e := {| p_cmd := lit "ls" ++ repeat NUL 1022; cmd_len := 2; cmd_idx := 2 |} in
  cmd_idx e = cmd_len e /\
  (forall fuel : nat, shift_loop fuel (cmd_len e) (cmd_idx e) (p_cmd e) = p_cmd e) /\
  (forall (c : ascii) (w1 : world),
     cmd_len e < DEFAULT_CMD_MAXLEN ->
     insert_char c e w1 =
       ({| p_cmd := store (p_cmd e) (cmd_len e) c;
           cmd_len := cmd_len e + 1; cmd_idx := cmd_len e + 1 |},
        printf [c] w1)).
Proof.
  intros e.
  apply (get_cmd_cursor_at_end 2 zeroed (pipe (keys (lit "ls -l")))
           {| tty := None; stdin := keys (lit " -l"); stdout := lit "ls" |} e).
  vm_compute. reflexivity.
Defined.

(** ** Bytes of the [default:] case *)

Example key_macros :
  KEY_CTRL (int_of_char "c"%char) = int_of_char ETX /\
  KEY_CTRL (int_of_char "d"%char) = int_of_char EOT /\
  KEY_ENTER = int_of_char CR /\
  KEY_BACKSPACE = int_of_char DEL /\
  KEY_ESCAPE = int_of_char ESC.
Proof. repeat split. Qed.

(** C10: in every state the loop reaches with room left in the buffer, a
    byte other than 0x03, 0x04 and 13 is echoed as it is and stored at the
    end of the line; the line grows by one and the bytes typed before stay
    where they are.  Backspace (0x7F), escape (0x1B) and NUL are such
    bytes: nothing is deleted and nothing is decoded. *)
Theorem get_cmd_takes_any_other_byte_literally (n : nat) (buf : list ascii)
    (w0 w : world) (e : editor) (s : Z) (c : ascii) (rest : list input_event) :
  Z.of_nat (length buf) = DEFAULT_CMD_MAXLEN ->
  get_cmd_after n (editor_init buf) w0 = Some (e, w) ->
  c <> ETX -> c <> EOT -> c <> CR ->
  cmd_len e < DEFAULT_CMD_MAXLEN ->
  stdin w = Key c :: rest ->
  get_cmd_iter s e w =
    Next {| p_cmd := store (p_cmd e) (cmd_len e) c;
            cmd_len := cmd_len e + 1; cmd_idx := cmd_len e + 1 |}
         {| tty := tty w; stdin := rest; stdout := stdout w ++ [c] |} /\
  load (store (p_cmd e) (cmd_len e) c) (cmd_len e) = c /\
  (forall j : Z, 0 <= j < cmd_len e ->
     load (store (p_cmd e) (cmd_len e) c) j = load (p_cmd e) j) /\
  plain DEL /\ plain ESC /\ plain NUL.
Proof.
  intros Hbuf Hn H3 H4 H13 Hroom Hw.
  destruct (get_cmd_after_aligned n _ _ _ _ (aligned_init buf) Hn) as [[Hidx Hlen] Hl].
  cbn [editor_init p_cmd] in Hl.
  assert (Hc : plain c) by (repeat split; assumption).
  split; [|split; [|split]].
  - rewrite (get_cmd_iter_default s 1 c e w (set_stdin w rest));
      [ | now apply read_key | discriminate | assumption ].
    destruct (Z.geb_spec (cmd_len e) DEFAULT_CMD_MAXLEN); [lia|].
    rewrite insert_char_at_end by lia. reflexivity.
  - rewrite load_store by lia. now rewrite Z.eqb_refl.
  - intros j Hj. rewrite load_store by lia.
    destruct (Z.eqb_spec j (cmd_len e)); [lia | reflexivity].
  - repeat split; discriminate.
Qed.

Lemma get_cmd_takes_any_other_byte_literally_witness :
  let e := {| p_cmd := lit "ab" ++ repeat NUL 1022; cmd_len := 2; cmd_idx := 2 |} in
  let w := {| tty := None; stdin := [Key DEL; Key CR]; stdout := lit "ab" |} in
  get_cmd_iter (-1) e w =
    Next {| p_cmd := store (p_cmd e) (cmd_len e) DEL;
            cmd_len := cmd_len e + 1; cmd_idx := cmd_len e + 1 |}
         {| tty := tty w; stdin := [Key CR]; stdout := stdout w ++ [DEL] |} /\
  load (store (p_cmd e) (cmd_len e) DEL) (cmd_len e) = DEL /\
  (forall j : Z, 0 <= j < cmd_len e ->
     load (store (p_cmd e) (cmd_len e) DEL) j = load (p_cmd e) j) /\
  plain DEL /\ plain ESC /\ plain NUL.
Proof.
  intros e w.
  apply (get_cmd_takes_any_other_byte_literally 2 zeroed
           (pipe (keys (lit "ab") ++ [Key DEL; Key CR])) w e (-1) DEL [Key CR]).
  - reflexivity.
  - vm_compute. reflexivity.
  - discriminate.
  - discriminate.
  - discriminate.
  - vm_compute. reflexivity.
  - reflexivity.
Defined.

(** Backspace and an arrow-key escape sequence end up in the line. *)
Example backspace_and_arrow_are_text :
  get_cmd 10 (Some main_console) (Some (repeat NUL 1024))
    (pipe (keys [ "a"; DEL; ESC; "["; "A"; NUL; "b" ]%char ++ [Key CR])) =
  Some (0, Some ([ "a"; DEL; ESC; "["; "A"; NUL; "b" ]%char ++ repeat NUL 1017),
        {| tty := None; stdin := [];
           stdout := [ "a"; DEL; ESC; "["; "A"; NUL; "b" ]%char |}).
Proof. vm_compute. reflexivity. Qed.

(** ** Insertion in the middle of the line *)

(** C7: in a buffer state with 0 <= cmd_idx <= cmd_len < 1024, a pass that
    reads a byte other than 0x03, 0x04 and 13 puts it at index cmd_idx,
    moves each byte of the line at or after the cursor one cell to the
    right, leaves the bytes before the cursor and behind the line alone,
    and adds one to cmd_idx and to cmd_len. *)
Theorem insert_char_mid_line (s : Z) (c : ascii) (e : editor) (w : world)
    (rest : list input_event) :
  0 <= cmd_idx e <= cmd_len e ->
  cmd_len e < DEFAULT_CMD_MAXLEN ->
  Z.of_nat (length (p_cmd e)) = DEFAULT_CMD_MAXLEN ->
  plain c ->
  stdin w = Key c :: rest ->
  exists (e' : editor) (w' : world),
    get_cmd_iter s e w = Next e' w' /\
    load (p_cmd e') (cmd_idx e) = c /\
    (forall j : Z, cmd_idx e <= j < cmd_len e ->
       load (p_cmd e') (j + 1) = load (p_cmd e) j) /\
    (forall j : Z, 0 <= j < cmd_idx e -> load (p_cmd e') j = load (p_cmd e) j) /\
    (forall j : Z, cmd_len e < j -> load (p_cmd e') j = load (p_cmd e) j) /\
    cmd_idx e' = cmd_idx e + 1 /\
    cmd_len e' = cmd_len e + 1 /\
    length (p_cmd e') = length (p_cmd e).
Proof.
  intros Hidx Hlen Hbuf Hc Hw.
  exists (fst (insert_char c e (set_stdin w rest))),
         (snd (insert_char c e (set_stdin w rest))).
  split.
  { rewrite (get_cmd_iter_default s 1 c e w (set_stdin w rest));
      [ | now apply read_key | discriminate | assumption ].
    destruct (Z.geb_spec (cmd_len e) DEFAULT_CMD_MAXLEN); [lia | reflexivity]. }
  unfold insert_char. cbn [fst p_cmd cmd_len cmd_idx].
  rewrite !size_incr_small by lia.
  assert (Hshift : forall j : Z, 0 <= j ->
            load (shift_loop (Z.to_nat (cmd_len e)) (cmd_len e) (cmd_idx e) (p_cmd e)) j =
            if (cmd_idx e <? j) && (j <=? cmd_len e)
            then load (p_cmd e) (j - 1) else load (p_cmd e) j).
  { intros j Hj. apply load_shift_loop; lia. }
  assert (Hstore : forall j : Z, 0 <= j ->
            load (store (shift_loop (Z.to_nat (cmd_len e)) (cmd_len e) (cmd_idx e)
                           (p_cmd e)) (cmd_idx e) c) j =
            if j =? cmd_idx e then c
            else load (shift_loop (Z.to_nat (cmd_len e)) (cmd_len e) (cmd_idx e)
                         (p_cmd e)) j).
  { intros j Hj. apply load_store; [rewrite length_shift_loop|]; lia. }
  repeat split.
  - rewrite Hstore by lia. now rewrite Z.eqb_refl.
  - intros j Hj. rewrite Hstore, Hshift by lia.
    destruct (Z.eqb_spec (j + 1) (cmd_idx e)); [lia|].
    destruct (Z.ltb_spec (cmd_idx e) (j + 1)), (Z.leb_spec (j + 1) (cmd_len e));
      cbn [andb]; try lia.
    f_equal. lia.
  - intros j Hj. rewrite Hstore, Hshift by lia.
    destruct (Z.eqb_spec j (cmd_idx e)); [lia|].
    destruct (Z.ltb_spec (cmd_idx e) j); [lia | reflexivity].
  - intros j Hj. rewrite Hstore, Hshift by lia.
    destruct (Z.eqb_spec j (cmd_idx e)); [lia|].
    destruct (Z.ltb_spec (cmd_idx e) j), (Z.leb_spec j (cmd_len e));
      cbn [andb]; try lia; reflexivity.
  - now rewrite length_store, length_shift_loop.
Qed.

Lemma insert_char_mid_line_witness :
  let e := {| p_cmd := lit "abcdef" ++ repeat NUL 1018; cmd_len := 6; cmd_idx := 2 |} in
  exists (e' : editor) (w' : world),
    get_cmd_iter (-1) e (pipe [Key "X"%char]) = Next e' w' /\
    load (p_cmd e') (cmd_idx e) = "X"%char /\
    (forall j : Z, cmd_idx e <= j < cmd_len e ->
       load (p_cmd e') (j + 1) = load (p_cmd e) j) /\
    (forall j : Z, 0 <= j < cmd_idx e -> load (p_cmd e') j = load (p_cmd e) j) /\
    (forall j : Z, cmd_len e < j -> load (p_cmd e') j = load (p_cmd e) j) /\
    cmd_idx e' = cmd_idx e + 1 /\
    cmd_len e' = cmd_len e + 1 /\
    length (p_cmd e') = length (p_cmd e).
Proof.
  intros e.
  apply (insert_char_mid_line (-1) "X"%char e (pipe [Key "X"%char]) []).
  - vm_compute. split; discriminate.
  - vm_compute. reflexivity.
  - reflexivity.
  - repeat split; discriminate.
  - reflexivity.
Defined.

(** The same insertion, run: the byte is echoed, the shifted tail of the
    line is printed again, and one backspace per reprinted byte brings the
    terminal cursor back. *)
Example insert_char_mid_line_run :
  insert_char "X"%char
    {| p_cmd := lit "abcdef" ++ repeat NUL 3; cmd_len := 6; cmd_idx := 2 |}
    (pipe []) =
  ({| p_cmd := lit "abXcdef" ++ repeat NUL 2; cmd_len := 7; cmd_idx := 3 |},
   {| tty := None; stdin := []; stdout := lit "Xcdef" ++ repeat BS 4 |}).
Proof. vm_compute. reflexivity. Qed.

(** ** Restoring the terminal *)

(** C6, counterexample: [console_finalize] on the context as [main]
    builds it, never passed to [console_initialize], with stdin a terminal
    in its usual cooked mode.  The call is not a no-op: it installs the
    all-zero settings that [old_console] happens to hold. *)
Lemma console_finalize_without_acquire_resets_terminal :
  console_finalize (Some main_console) (terminal []) =
    {| tty := Some zero_termios; stdin := []; stdout := [] |} /\
  console_finalize (Some main_console) (terminal []) <> terminal [].
Proof. split; [reflexivity | discriminate]. Qed.

Section Finalize.

Context {H : termios_h}.

(** C6 (amended): [console_finalize] reports nothing and is idempotent: a
    second call in succession leaves the environment as the first call
    left it.  It changes nothing on a NULL context and when stdin is not a
    terminal.  After [console_initialize], whether that succeeded or
    failed, it puts the terminal back as it was before, and calling it
    once more changes nothing. *)
Theorem console_finalize_idempotent (p_console : option console_t) (w : world) :
  console_finalize p_console (console_finalize p_console w) =
    console_finalize p_console w /\
  console_finalize None w = w /\
  console_finalize p_console (set_tty w None) = set_tty w None /\
  (let '(_, p', w') := console_initialize p_console w in
   console_finalize p' w' = w /\
   console_finalize p' (console_finalize p' w') = w).
Proof.
  destruct w as [t i o]. destruct p_console as [con|]; cbn.
  - destruct t as [cur|]; cbn; repeat split; reflexivity.
  - repeat split; reflexivity.
Qed.

End Finalize.

(** ** The hint after a cancelled line *)

Lemma c_string_terminated (bs t : list ascii) :
  exists s, c_string (bs ++ NUL :: t) = Some s.
Proof.
  induction bs as [|c bs [s IH]]; simpl.
  - now exists [].
  - destruct (Ascii.eqb c NUL); [now exists [] |].
    rewrite IH. now exists (c :: s).
Qed.

(** [strlen] of a terminated array is 0 exactly when the array starts
    with the NUL. *)
Lemma strlen_terminated (bs t : list ascii) :
  exists n, strlen (bs ++ NUL :: t) = Some n /\
    (0 =? n) = match bs with
               | [] => true
               | c :: _ => Ascii.eqb c NUL
               end.
Proof.
  unfold strlen. destruct bs as [|c bs].
  - simpl. now exists 0.
  - cbn [app c_string].
    destruct (Ascii.eqb c NUL); [now exists 0 |].
    destruct (c_string_terminated bs t) as [s ->].
    exists (Z.of_nat (length (c :: s))). split; [reflexivity|].
    destruct (Z.eqb_spec 0 (Z.of_nat (length (c :: s)))) as [Hz|_]; [|reflexivity].
    cbn [length] in Hz. lia.
Qed.

Lemma c_string_no_nul (bs t : list ascii) :
  ~ In NUL bs -> c_string (bs ++ NUL :: t) = Some bs.
Proof.
  induction bs as [|c bs IH]; intros Hno; simpl; [reflexivity|].
  destruct (Ascii.eqb_spec c NUL) as [->|_].
  - exfalso. apply Hno. now left.
  - rewrite IH; [reflexivity|]. intros Hin. apply Hno. now right.
Qed.

(** In a zeroed array a line of fewer than 1024 bytes is followed by a
    NUL. *)
Lemma typed_into_zeroed (bs : list ascii) :
  Z.of_nat (length bs) < DEFAULT_CMD_MAXLEN ->
  typed_into zeroed bs = bs ++ NUL :: repeat NUL (capacity - S (length bs)).
Proof.
  intros Hshort. unfold typed_into.
  assert (Hz : length zeroed = capacity) by apply repeat_length.
  assert (Hcap := capacity_eq).
  rewrite firstn_all2 by lia. f_equal.
  unfold zeroed. fold capacity.
  replace capacity with (length bs + S (capacity - S (length bs)))%nat at 1 by lia.
  rewrite repeat_app, skipn_app, repeat_length, Nat.sub_diag, skipn_all2
    by (rewrite repeat_length; lia).
  reflexivity.
Qed.

(** C8, counterexample: a NUL byte is typed, then Ctrl-C.  At the moment
    of cancellation the line holds one byte (cmd_len is 1), and the hint
    is printed all the same. *)
Lemma hint_after_line_starting_with_nul :
  get_cmd_loop 2 (-1) (editor_init zeroed)
    (printf (prompt "$"%char) (terminal [Key NUL; Key ETX])) =
    Some (1,
          {| p_cmd := zeroed; cmd_len := 1; cmd_idx := 1 |},
          {| tty := Some cooked; stdin := [];
             stdout := lit "$ " ++ [NUL] ++ lit "^C" |}) /\
  console_turn 2 (Some main_console) "$"%char zeroed (terminal [Key NUL; Key ETX]) =
    Again zeroed
      {| tty := Some cooked; stdin := [];
         stdout := lit "$ " ++ [NUL] ++ lit "^C" ++ CRLF ++ hint |}.
Proof. split; vm_compute; reflexivity. Qed.

(** C8 (amended): when [get_cmd] returns 1 after fewer than 1024 bytes
    were typed, the pass of the main loop prints the hint exactly when the
    buffer holds the empty string, that is when nothing was typed or the
    first byte typed was NUL; otherwise it prints no hint.  Either way the
    loop goes round again, and its next pass prints the prompt. *)
Theorem console_turn_cancel (bs buf : list ascii) (con : console_t)
    (prompt_c : ascii) (rest : list input_event) (w : world) (fuel : nat) :
  Forall plain bs ->
  Z.of_nat (length bs) < DEFAULT_CMD_MAXLEN ->
  Z.of_nat (length buf) = DEFAULT_CMD_MAXLEN ->
  stdin w = keys bs ++ Key ETX :: rest ->
  (length bs < fuel)%nat ->
  console_turn fuel (Some con) prompt_c buf w =
    Again (bs ++ repeat NUL (capacity - length bs))
      {| tty := tty w; stdin := rest;
         stdout := stdout w ++ prompt prompt_c ++ bs ++ lit "^C" ++ CRLF
                     ++ match bs with
                        | [] => hint
                        | c :: _ => if Ascii.eqb c NUL then hint else []
                        end |} /\
  console_loop (S fuel) (Some con) prompt_c buf w =
    console_loop fuel (Some con) prompt_c (bs ++ repeat NUL (capacity - length bs))
      {| tty := tty w; stdin := rest;
         stdout := stdout w ++ prompt prompt_c ++ bs ++ lit "^C" ++ CRLF
                     ++ match bs with
                        | [] => hint
                        | c :: _ => if Ascii.eqb c NUL then hint else []
                        end |}.
Proof.
  intros Hbs Hshort Hbuf Hw Hfuel.
  assert (Hturn : forall k : nat, (length bs < k)%nat ->
    console_turn k (Some con) prompt_c buf w =
    Again (bs ++ repeat NUL (capacity - length bs))
      {| tty := tty w; stdin := rest;
         stdout := stdout w ++ prompt prompt_c ++ bs ++ lit "^C" ++ CRLF
                     ++ match bs with
                        | [] => hint
                        | c :: _ => if Ascii.eqb c NUL then hint else []
                        end |}).
  { intros k Hk. unfold console_turn. rewrite (memset_full buf Hbuf). unfold fflush.
    rewrite (get_cmd_of_loop k con zeroed _ _ 1 _
               (get_cmd_loop_typed bs zeroed (Key ETX) rest
                  (printf (prompt prompt_c) w)
                  (fun w1 => printf (lit "^C") (set_stdin w1 rest)) 1 k Hbs
                  eq_refl Hw
                  (fun e w1 H1 => get_cmd_iter_ctrl_c (-1) e w1 rest H1) Hk)).
    cbn [p_cmd]. rewrite (typed_into_zeroed bs Hshort).
    assert (Hz : length zeroed = capacity) by apply repeat_length.
    assert (Hcap := capacity_eq).
    rewrite firstn_all2 by lia.
    change (0 >? 1) with false. change (1 =? 1) with true. cbv iota.
    destruct (strlen_terminated bs (repeat NUL (capacity - S (length bs))))
      as (n & -> & ->).
    replace (capacity - length bs)%nat with (S (capacity - S (length bs))) by lia.
    cbn [repeat]. f_equal.
    unfold printf, set_stdin; cbn [tty stdin stdout].
    destruct bs as [|c bs']; [|destruct (Ascii.eqb c NUL)];
      rewrite <- ?app_assoc, ?app_nil_r; reflexivity. }
  split; [now apply Hturn|].
  cbn [console_loop]. rewrite Hturn by lia. reflexivity.
Qed.

Lemma console_turn_cancel_witness :
  console_turn 3 (Some main_console) "$"%char zeroed
    (terminal (keys (lit "ls") ++ [Key ETX])) =
    Again (lit "ls" ++ repeat NUL (capacity - 2))
      {| tty := Some cooked; stdin := [];
         stdout := [] ++ prompt "$"%char ++ lit "ls" ++ lit "^C" ++ CRLF ++ [] |} /\
  console_loop 4 (Some main_console) "$"%char zeroed
    (terminal (keys (lit "ls") ++ [Key ETX])) =
    console_loop 3 (Some main_console) "$"%char (lit "ls" ++ repeat NUL (capacity - 2))
      {| tty := Some cooked; stdin := [];
         stdout := [] ++ prompt "$"%char ++ lit "ls" ++ lit "^C" ++ CRLF ++ [] |}.
Proof.
  apply (console_turn_cancel (lit "ls") zeroed main_console "$"%char []
           (terminal (keys (lit "ls") ++ [Key ETX])) 3).
  - repeat constructor; discriminate.
  - vm_compute. reflexivity.
  - reflexivity.
  - reflexivity.
  - simpl. lia.
Defined.

(** ** The line as a C string *)

(** A line without NUL of fewer than 1024 bytes, typed into the zeroed
    array, is the string the caller finds there. *)
Lemma get_cmd_returns_string (bs : list ascii) (con : console_t)
    (rest : list input_event) (w : world) (fuel : nat) :
  Forall plain bs -> ~ In NUL bs ->
  Z.of_nat (length bs) < DEFAULT_CMD_MAXLEN ->
  stdin w = keys bs ++ Key CR :: rest ->
  (length bs < fuel)%nat ->
  exists (buf' : list ascii) (w' : world),
    get_cmd fuel (Some con) (Some zeroed) w = Some (0, Some buf', w') /\
    c_string buf' = Some bs /\
    strlen buf' = Some (Z.of_nat (length bs)).
Proof.
  intros Hbs Hno Hshort Hw Hfuel.
  exists (typed_into zeroed bs), {| tty := tty w; stdin := rest; stdout := stdout w ++ bs |}.
  assert (Hz : length zeroed = capacity) by apply repeat_length.
  assert (Hcap := capacity_eq).
  split.
  - rewrite (get_cmd_of_loop fuel con zeroed w _ 0 _
               (get_cmd_loop_typed bs zeroed (Key CR) rest w
                  (fun w1 => set_stdin w1 rest) 0 fuel Hbs eq_refl Hw
                  (fun e w1 H1 => get_cmd_iter_enter (-1) e w1 rest H1) Hfuel)).
    cbn [p_cmd]. rewrite firstn_all2 by lia. reflexivity.
  - unfold strlen. rewrite (typed_into_zeroed bs Hshort), c_string_no_nul by assumption.
    split; reflexivity.
Qed.

(** With 1024 bytes typed the array holds no NUL: the string that the
    main loop goes on to print is not terminated inside the array. *)
Example full_line_is_not_terminated :
  get_cmd 1025 (Some main_console) (Some zeroed)
    (pipe (keys (repeat "a"%char 1024) ++ [Key CR])) =
    Some (0, Some (repeat "a"%char 1024),
          {| tty := None; stdin := []; stdout := repeat "a"%char 1024 |}) /\
  c_string (repeat "a"%char 1024) = None /\
  console_turn 1025 (Some main_console) "$"%char zeroed
    (pipe (keys (repeat "a"%char 1024) ++ [Key CR])) = TurnUndefined.
Proof. split; [|split]; vm_compute; reflexivity. Qed.

(** ** Whole runs *)

Example get_cmd_null_arguments :
  get_cmd 1 None (Some zeroed) (pipe [Key CR]) = Some (-1, Some zeroed, pipe [Key CR]) /\
  get_cmd 1 (Some main_console) None (pipe [Key CR]) = Some (-1, None, pipe [Key CR]).
Proof. split; reflexivity. Qed.

(** Raw mode on Linux, from the usual cooked settings. *)
Example console_initialize_linux :
  console_initialize (H := linux_termios_h) (Some main_console) (terminal []) =
    (0,
     Some {| old_console := cooked;
             new_console := {| c_iflag := 0x0; c_oflag := 0x4; c_cflag := 0xbf;
                               c_lflag := 0xa30; c_cc := [] |};
             pp_history := None; history_max := 30 |},
     {| tty := Some {| c_iflag := 0x0; c_oflag := 0x4; c_cflag := 0xbf;
                       c_lflag := 0xa30; c_cc := [] |};
        stdin := []; stdout := [] |}).
Proof. vm_compute. reflexivity. Qed.

(** A session on a terminal: a command, a cancelled line starting with
    NUL, a cancelled line, a cancelled empty line, Ctrl-D.  The terminal
    is back in cooked mode at the end and the exit status is 0. *)
Example main_session :
  main (H := linux_termios_h) 20 zeroed
    (terminal (keys (lit "ls") ++ [Key CR; Key NUL; Key ETX; Key "a"%char; Key ETX;
                                   Key ETX; Key EOT])) =
  Done (0,
        {| tty := Some cooked; stdin := [];
           stdout :=
             banner
             ++ lit "$ ls" ++ CRLF ++ lit "'ls'" ++ CRLF
             ++ lit "$ " ++ [NUL] ++ lit "^C" ++ CRLF ++ hint
             ++ lit "$ a^C" ++ CRLF
             ++ lit "$ ^C" ++ CRLF ++ hint
             ++ lit "$ " ++ CRLF
             ++ lit "Exiting..." ++ CRLF |}).
Proof. vm_compute. reflexivity. Qed.

(** Without a terminal [console_initialize] fails and nothing is printed. *)
Example main_without_terminal :
  main (H := linux_termios_h) 20 zeroed (pipe (keys (lit "ls") ++ [Key CR])) =
  Done (0, pipe (keys (lit "ls") ++ [Key CR])).
Proof. vm_compute. reflexivity. Qed.

(** * Further properties of the code *)

(** ** The control-key macro *)

(** X1: [KEY_CTRL] keeps the five low bits of a key: the result is the key
    modulo 32, lies in 0..31, and is the same for two keys 32 apart, such
    as a lower-case letter and its capital. *)
Theorem KEY_CTRL_mod_32 (k : Z) :
  KEY_CTRL k = k mod 32 /\
  0 <= KEY_CTRL k < 32 /\
  KEY_CTRL (k + 32) = KEY_CTRL k.
Proof.
  assert (Hmod : forall z, KEY_CTRL z = z mod 32).
  { intros z. unfold KEY_CTRL. change 0x1F with (Z.ones 5).
    now rewrite Z.land_ones by lia. }
  rewrite !Hmod. split; [reflexivity|]. split.
  - apply Z.mod_pos_bound. lia.
  - replace (k + 32) with (k + 1 * 32) by lia. apply Z_mod_plus_full.
Qed.

(** ** Raw mode *)

Lemma tcflag_not_bit (m n : Z) :
  0 <= n < 32 -> Z.testbit (tcflag_not m) n = negb (Z.testbit m n).
Proof.
  intros Hn. unfold tcflag_not, tcflag_wrap.
  rewrite Z.mod_pow2_bits_low by lia.
  apply Z.lnot_spec. lia.
Qed.

Section Raw.

Context {H : termios_h}.

(** X2: On a terminal [console_initialize] succeeds: the settings found are
    saved in [old_console], and the settings installed, kept in
    [new_console], differ from them in exactly the named bits.  ECHO,
    ICANON, ISIG and IEXTEN are cleared in the local flags, BRKINT, ICRNL,
    INPCK, ISTRIP and IXON in the input flags, OPOST in the output flags;
    the bits of CS8 are set in the control flags; every other bit of the
    four words and the control characters stay as they were.  Nothing is
    read or printed. *)
Theorem console_initialize_raw_bits (con : console_t) (w : world) (cur : termios) :
  tty w = Some cur ->
  exists raw : termios,
    console_initialize (Some con) w =
      (0,
       Some {| old_console := cur; new_console := raw;
               pp_history := pp_history con; history_max := history_max con |},
       {| tty := Some raw; stdin := stdin w; stdout := stdout w |}) /\
    c_cc raw = c_cc cur /\
    forall n : Z, 0 <= n < 32 ->
      Z.testbit (c_lflag raw) n =
        Z.testbit (c_lflag cur) n
        && negb (Z.testbit ECHO n || Z.testbit ICANON n
                 || Z.testbit ISIG n || Z.testbit IEXTEN n) /\
      Z.testbit (c_iflag raw) n =
        Z.testbit (c_iflag cur) n
        && negb (Z.testbit BRKINT n || Z.testbit ICRNL n || Z.testbit INPCK n
                 || Z.testbit ISTRIP n || Z.testbit IXON n) /\
      Z.testbit (c_oflag raw) n =
        Z.testbit (c_oflag cur) n && negb (Z.testbit OPOST n) /\
      Z.testbit (c_cflag raw) n =
        Z.testbit (c_cflag cur) n || Z.testbit CS8 n.
Proof.
  intros Htty. exists (make_raw cur). split; [|split].
  - destruct w as [t i o]. cbn in Htty. subst t. reflexivity.
  - reflexivity.
  - intros n Hn. unfold make_raw; cbn [c_lflag c_iflag c_oflag c_cflag].
    rewrite !Z.land_spec, !tcflag_not_bit, !Z.lor_spec by assumption.
    repeat split; f_equal; f_equal;
      repeat rewrite <- orb_assoc; reflexivity.
Qed.

End Raw.

Lemma console_initialize_raw_bits_witness :
  exists raw : termios,
    console_initialize (H := linux_termios_h) (Some main_console) (terminal []) =
      (0,
       Some {| old_console := cooked; new_console := raw;
               pp_history := None; history_max := DEFAULT_HISTORY_MAXLEN |},
       {| tty := Some raw; stdin := []; stdout := [] |}) /\
    c_cc raw = c_cc cooked /\
    forall n : Z, 0 <= n < 32 ->
      Z.testbit (c_lflag raw) n =
        Z.testbit (c_lflag cooked) n
        && negb (Z.testbit 0x8 n || Z.testbit 0x2 n
                 || Z.testbit 0x1 n || Z.testbit 0x8000 n) /\
      Z.testbit (c_iflag raw) n =
        Z.testbit (c_iflag cooked) n
        && negb (Z.testbit 0x2 n || Z.testbit 0x100 n || Z.testbit 0x10 n
                 || Z.testbit 0x20 n || Z.testbit 0x400 n) /\
      Z.testbit (c_oflag raw) n =
        Z.testbit (c_oflag cooked) n && negb (Z.testbit 0x1 n) /\
      Z.testbit (c_cflag raw) n =
        Z.testbit (c_cflag cooked) n || Z.testbit 0x30 n.
Proof.
  apply (console_initialize_raw_bits (H := linux_termios_h) main_console
           (terminal []) cooked).
  reflexivity.
Defined.

(** ** The terminal settings across a run *)

Lemma reprint_loop_frame (fuel : nat) :
  forall (i len : Z) (p : list ascii) (w : world),
    tty (reprint_loop fuel i len p w) = tty w /\
    stdin (reprint_loop fuel i len p w) = stdin w.
Proof.
  induction fuel as [|fuel IH]; intros i len p w; simpl; [now split|].
  destruct (i <? len); [|now split].
  destruct (IH (size_incr i) len p (printf [load p i] w)) as [-> ->]. now split.
Qed.

Lemma backspace_loop_frame (fuel : nat) :
  forall (i len : Z) (w : world),
    tty (backspace_loop fuel i len w) = tty w /\
    stdin (backspace_loop fuel i len w) = stdin w.
Proof.
  induction fuel as [|fuel IH]; intros i len w; simpl; [now split|].
  destruct (i <? len); [|now split].
  destruct (IH (size_incr i) len (printf [BS] w)) as [-> ->]. now split.
Qed.

Lemma insert_char_frame (c : ascii) (e : editor) (w : world) :
  tty (snd (insert_char c e w)) = tty w /\
  stdin (snd (insert_char c e w)) = stdin w.
Proof.
  unfold insert_char, fflush. cbn [snd].
  split.
  - now rewrite (proj1 (backspace_loop_frame _ _ _ _)), (proj1 (reprint_loop_frame _ _ _ _ _)).
  - now rewrite (proj2 (backspace_loop_frame _ _ _ _)), (proj2 (reprint_loop_frame _ _ _ _ _)).
Qed.

Lemma read_tty (c0 c : ascii) (r : Z) (w w1 : world) :
  read c0 w = (r, c, w1) -> tty w1 = tty w.
Proof.
  unfold read. destruct (stdin w) as [|[b|] rest]; intros Heq; inversion Heq; reflexivity.
Qed.

Lemma get_cmd_iter_tty (s : Z) (e : editor) (w : world) :
  match get_cmd_iter s e w with
  | Next _ w' => tty w' = tty w
  | Exit _ _ w' => tty w' = tty w
  end.
Proof.
  unfold get_cmd_iter.
  destruct (read NUL w) as [[r c] w1] eqn:Hread.
  apply read_tty in Hread.
  repeat match goal with
         | |- context [if ?b then _ else _] => destruct b
         end; try exact Hread.
  pose proof (insert_char_frame c e w1) as [Ht _].
  destruct (insert_char c e w1) as [e' w']. cbn [snd] in Ht. congruence.
Qed.

Lemma get_cmd_loop_tty (fuel : nat) :
  forall (s s' : Z) (e e' : editor) (w w' : world),
    get_cmd_loop fuel s e w = Some (s', e', w') -> tty w' = tty w.
Proof.
  induction fuel as [|fuel IH]; intros s s' e e' w w' Hloop; simpl in Hloop; [discriminate|].
  pose proof (get_cmd_iter_tty s e w) as Hiter.
  destruct (get_cmd_iter s e w) as [e1 w1|s1 e1 w1].
  - rewrite <- Hiter. now apply (IH s s' e1 e').
  - inversion Hloop; subst. exact Hiter.
Qed.

Lemma get_cmd_tty (fuel : nat) (p_console : option console_t)
    (p_buf p_buf' : option (list ascii)) (w w' : world) (s : Z) :
  get_cmd fuel p_console p_buf w = Some (s, p_buf', w') -> tty w' = tty w.
Proof.
  unfold get_cmd. destruct p_console as [con|], p_buf as [buf|];
    try (intros Heq; inversion Heq; reflexivity).
  destruct (get_cmd_loop fuel (-1) (editor_init buf) w) as [[[s1 e1] w1]|] eqn:Hloop;
    [|discriminate].
  intros Heq; inversion Heq; subst. now apply get_cmd_loop_tty in Hloop.
Qed.

Lemma console_turn_tty (fuel : nat) (p_console : option console_t)
    (prompt_c : ascii) (buf : list ascii) (w : world) :
  match console_turn fuel p_console prompt_c buf w with
  | Again _ w' => tty w' = tty w
  | Break _ w' => tty w' = tty w
  | _ => True
  end.
Proof.
  unfold console_turn, fflush.
  destruct (get_cmd fuel p_console _ _) as [[[s pb] w1]|] eqn:Hget; [|exact I].
  apply get_cmd_tty in Hget. cbn [printf tty] in Hget.
  destruct (0 >? s); [exact Hget|].
  destruct (1 =? s).
  - destruct (strlen _) as [n|]; [|exact I]. destruct (0 =? n); exact Hget.
  - destruct (c_string _) as [str|]; [exact Hget | exact I].
Qed.

Lemma console_loop_tty (fuel : nat) :
  forall (p_console : option console_t) (prompt_c : ascii) (buf : list ascii)
         (w w' : world),
    console_loop fuel p_console prompt_c buf w = Done w' -> tty w' = tty w.
Proof.
  induction fuel as [|fuel IH]; intros p_console prompt_c buf w w' Hloop;
    cbn [console_loop] in Hloop; [discriminate|].
  pose proof (console_turn_tty (S fuel) p_console prompt_c buf w) as Hturn.
  destruct (console_turn (S fuel) p_console prompt_c buf w) as [b1 w1|b1 w1| |];
    try discriminate.
  - rewrite <- Hturn. now apply (IH p_console prompt_c b1).
  - inversion Hloop; subst. exact Hturn.
Qed.

Section Restore.

Context {H : termios_h}.

Lemma console_initialize_terminal (con : console_t) (w : world) (cur : termios) :
  tty w = Some cur ->
  console_initialize (Some con) w =
    (0,
     Some {| old_console := cur; new_console := make_raw cur;
             pp_history := pp_history con; history_max := history_max con |},
     {| tty := Some (make_raw cur); stdin := stdin w; stdout := stdout w |}).
Proof. intros Htty. destruct w as [t i o]. cbn in Htty. subst t. reflexivity. Qed.

Lemma console_initialize_no_terminal (con : console_t) (w : world) :
  tty w = None -> console_initialize (Some con) w = (-1, Some con, w).
Proof.
  intros Htty. destruct w as [t i o], con. cbn in Htty. subst t. reflexivity.
Qed.

(** X3: However [console_run] comes to its end, after a failed
    [console_initialize], after Ctrl-D or after a failed [read], and
    whatever was typed in between, the terminal settings it leaves are the
    ones it found. *)
Theorem console_run_restores_terminal (fuel : nat) (p_console p' : option console_t)
    (stack : list ascii) (w w' : world) :
  console_run fuel p_console stack w = Done (p', w') -> tty w' = tty w.
Proof.
  unfold console_run. destruct p_console as [con|].
  - destruct (tty w) as [cur|] eqn:Htty.
    + rewrite (console_initialize_terminal con w cur Htty).
      change (-1 =? 0) with false. cbv iota.
      destruct (console_loop fuel _ _ stack _) as [w1| |] eqn:Hloop; try discriminate.
      apply console_loop_tty in Hloop. cbn [printf tty] in Hloop.
      intros Heq; inversion Heq; subst.
      unfold console_finalize, tcsetattr. cbn [old_console printf tty].
      rewrite Hloop. reflexivity.
    + rewrite (console_initialize_no_terminal con w Htty).
      change (-1 =? -1) with true. cbv iota.
      intros Heq; inversion Heq; subst.
      unfold console_finalize, tcsetattr. now rewrite Htty.
  - intros Heq; inversion Heq; subst. reflexivity.
Qed.

(** X4: Without a terminal on stdin, or with a NULL context, [console_run]
    ends at once: [console_initialize] returns -1 and leaves the context
    alone, no banner or prompt is printed and no input is read. *)
Theorem console_run_without_terminal (fuel : nat) (p_console : option console_t)
    (stack : list ascii) (w : world) :
  p_console = None \/ tty w = None ->
  console_initialize p_console w = (-1, p_console, w) /\
  console_run fuel p_console stack w = Done (p_console, w).
Proof.
  intros Hno. destruct p_console as [con|].
  - destruct Hno as [Hnull|Htty]; [discriminate|].
    split; [now apply console_initialize_no_terminal|].
    unfold console_run. rewrite (console_initialize_no_terminal con w Htty).
    change (-1 =? -1) with true. cbv iota.
    unfold console_finalize, tcsetattr. now rewrite Htty.
  - split; reflexivity.
Qed.


End Restore.

Lemma console_run_restores_terminal_witness :
  tty {| tty := Some cooked; stdin := [Key CR];
         stdout := banner ++ lit "$ ls^C" ++ CRLF ++ lit "$ " ++ CRLF
                     ++ lit "Exiting..." ++ CRLF |} =
  tty (terminal (keys (lit "ls") ++ [Key ETX; Key EOT; Key CR])).
Proof.
  apply (console_run_restores_terminal (H := linux_termios_h) 5 (Some main_console)
           (Some {| old_console := cooked;
                    new_console := make_raw (H := linux_termios_h) cooked;
                    pp_history := None; history_max := DEFAULT_HISTORY_MAXLEN |})
           zeroed).
  vm_compute. reflexivity.
Defined.

Lemma console_run_without_terminal_witness :
  console_initialize (H := linux_termios_h) (Some main_console)
    (pipe (keys (lit "ls") ++ [Key CR])) =
    (-1, Some main_console, pipe (keys (lit "ls") ++ [Key CR])) /\
  console_run (H := linux_termios_h) 5 (Some main_console) zeroed
    (pipe (keys (lit "ls") ++ [Key CR])) =
    Done (Some main_console, pipe (keys (lit "ls") ++ [Key CR])).
Proof.
  apply (console_run_without_terminal (H := linux_termios_h) 5 (Some main_console)
           zeroed (pipe (keys (lit "ls") ++ [Key CR]))).
  right. reflexivity.
Defined.

(** ** When and how [get_cmd] returns *)

Lemma terminating_cases (ev : input_event) :
  terminating ev = true ->
  ev = ReadFail \/ ev = Key ETX \/ ev = Key EOT \/ ev = Key CR.
Proof.
  destruct ev as [c|]; cbn [terminating]; [|now left].
  destruct (Ascii.eqb_spec c ETX) as [->|_]; [now right; left|].
  destruct (Ascii.eqb_spec c EOT) as [->|_]; [now right; right; left|].
  destruct (Ascii.eqb_spec c CR) as [->|_]; [now right; right; right|].
  discriminate.
Qed.

Lemma plain_iff_not_terminating (c : ascii) :
  plain c <-> terminating (Key c) = false.
Proof.
  unfold plain. cbn [terminating].
  destruct (Ascii.eqb_spec c ETX), (Ascii.eqb_spec c EOT), (Ascii.eqb_spec c CR);
    cbn [orb]; split; try discriminate; try tauto; intros (? & ? & ?); contradiction.
Qed.

Lemma existsb_terminating_keys (bs : list ascii) :
  Forall plain bs -> existsb terminating (keys bs) = false.
Proof.
  induction 1 as [|c bs Hc _ IH]; [reflexivity|].
  cbn [keys map existsb]. fold (keys bs).
  now rewrite (proj1 (plain_iff_not_terminating c) Hc), IH.
Qed.

(** An input is a run of [default:]-case bytes, either to its end or up
    to a first event on which [get_cmd] leaves. *)
Lemma split_input (i : list input_event) :
  (exists bs, Forall plain bs /\ i = keys bs) \/
  (exists bs ev rest,
     Forall plain bs /\ i = keys bs ++ ev :: rest /\ terminating ev = true).
Proof.
  induction i as [|ev i IH].
  - left. exists []. now split.
  - destruct (terminating ev) eqn:Hev.
    + right. exists [], ev, i. repeat split; [constructor | assumption].
    + destruct ev as [c|]; [|discriminate].
      apply plain_iff_not_terminating in Hev.
      destruct IH as [ (bs & Hbs & Hi) | (bs & ev' & rest & Hbs & Hi & Hev') ]; subst i.
      * left. exists (c :: bs). split; [now constructor | reflexivity].
      * right. exists (c :: bs), ev', rest.
        repeat split; [now constructor | assumption].
Qed.

Lemma get_cmd_loop_unterminated (bs buf : list ascii) (w : world) (fuel : nat) :
  Forall plain bs -> Z.of_nat (length buf) = DEFAULT_CMD_MAXLEN ->
  stdin w = keys bs ->
  get_cmd_loop fuel (-1) (editor_init buf) w = None.
Proof.
  intros Hbs Hbuf Hw.
  apply (get_cmd_loop_fuel_mono fuel (length bs)).
  rewrite Nat.add_comm, editor_init_editing.
  rewrite (get_cmd_loop_after (length bs) fuel _ _ _ _
             (get_cmd_after_type bs [] buf [] w Hbs (buffer_capacity buf Hbuf)
                (eq_trans Hw (eq_sym (app_nil_r _))))).
  apply get_cmd_loop_closed; [|reflexivity].
  rewrite <- (buffer_capacity buf Hbuf). cbn [app].
  rewrite !length_app, length_skipn, length_firstn. lia.
Qed.

Lemma get_cmd_loop_too_short (bs buf : list ascii) (w : world)
    (rest : list input_event) (fuel : nat) :
  Forall plain bs -> Z.of_nat (length buf) = DEFAULT_CMD_MAXLEN ->
  stdin w = keys bs ++ rest -> (fuel <= length bs)%nat ->
  get_cmd_loop fuel (-1) (editor_init buf) w = None.
Proof.
  intros Hbs Hbuf Hw Hfuel.
  apply (get_cmd_loop_fuel_mono fuel (length bs - fuel)).
  replace (fuel + (length bs - fuel))%nat with (length bs) by lia.
  apply get_cmd_loop_still_running.
  rewrite editor_init_editing,
    (get_cmd_after_type bs [] buf rest w Hbs (buffer_capacity buf Hbuf) Hw).
  discriminate.
Qed.

(** X6: Every return of [get_cmd] comes about in one way: the input starts
    with bytes of the [default:] case followed by a first event that is
    Ctrl-C, carriage return, Ctrl-D or a failed [read].  The input behind
    that event is left unread, the terminal settings are untouched, the
    buffer holds the first 1024 of the bytes before it followed by what
    the caller had there, exactly those bytes were echoed, and the status
    is 1 (with ^C echoed), 0, or -1 according to the event. *)
Theorem get_cmd_loop_returns_only_so (fuel : nat) (buf : list ascii)
    (w w' : world) (s : Z) (e : editor) :
  Z.of_nat (length buf) = DEFAULT_CMD_MAXLEN ->
  get_cmd_loop fuel (-1) (editor_init buf) w = Some (s, e, w') ->
  exists (bs : list ascii) (ev : input_event) (rest : list input_event),
    Forall plain bs /\
    stdin w = keys bs ++ ev :: rest /\
    (length bs < fuel)%nat /\
    stdin w' = rest /\
    tty w' = tty w /\
    p_cmd e = firstn (length buf) bs ++ skipn (length (firstn (length buf) bs)) buf /\
    cmd_len e = Z.of_nat (length (firstn (length buf) bs)) /\
    cmd_idx e = cmd_len e /\
    ((ev = Key ETX /\ s = 1 /\
      stdout w' = (stdout w ++ firstn (length buf) bs) ++ lit "^C") \/
     (ev = Key CR /\ s = 0 /\ stdout w' = stdout w ++ firstn (length buf) bs) \/
     ((ev = Key EOT \/ ev = ReadFail) /\ s = -1 /\
      stdout w' = stdout w ++ firstn (length buf) bs)).
Proof.
  intros Hbuf Hloop.
  destruct (split_input (stdin w)) as [(bs & Hbs & Hw)|(bs & ev & rest & Hbs & Hw & Hev)].
  { rewrite (get_cmd_loop_unterminated bs buf w fuel Hbs Hbuf Hw) in Hloop. discriminate. }
  destruct (Nat.le_gt_cases fuel (length bs)) as [Hshort|Hfuel].
  { rewrite (get_cmd_loop_too_short bs buf w _ fuel Hbs Hbuf Hw Hshort) in Hloop.
    discriminate. }
  exists bs, ev, rest.
  destruct (terminating_cases ev Hev) as [ -> | [ -> | [ -> | -> ] ] ].
  - rewrite (get_cmd_loop_typed bs buf ReadFail rest w (fun w1 => set_stdin w1 rest)
               (-1) fuel Hbs Hbuf Hw
               (fun e1 w1 H1 => get_cmd_iter_fail (-1) e1 w1 rest H1) Hfuel) in Hloop.
    inversion Hloop; subst. cbn.
    repeat split; try assumption. right; right. repeat split. now right.
  - rewrite (get_cmd_loop_typed bs buf (Key ETX) rest w
               (fun w1 => printf (lit "^C") (set_stdin w1 rest))
               1 fuel Hbs Hbuf Hw
               (fun e1 w1 H1 => get_cmd_iter_ctrl_c (-1) e1 w1 rest H1) Hfuel) in Hloop.
    inversion Hloop; subst. cbn.
    repeat split; try assumption. left. repeat split.
  - rewrite (get_cmd_loop_typed bs buf (Key EOT) rest w (fun w1 => set_stdin w1 rest)
               (-1) fuel Hbs Hbuf Hw
               (fun e1 w1 H1 => get_cmd_iter_ctrl_d (-1) e1 w1 rest H1) Hfuel) in Hloop.
    inversion Hloop; subst. cbn.
    repeat split; try assumption. right; right. repeat split. now left.
  - rewrite (get_cmd_loop_typed bs buf (Key CR) rest w (fun w1 => set_stdin w1 rest)
               0 fuel Hbs Hbuf Hw
               (fun e1 w1 H1 => get_cmd_iter_enter (-1) e1 w1 rest H1) Hfuel) in Hloop.
    inversion Hloop; subst. cbn.
    repeat split; try assumption. right; left. repeat split.
Qed.

Lemma get_cmd_loop_returns_only_so_witness :
  exists (bs : list ascii) (ev : input_event) (rest : list input_event),
    Forall plain bs /\
    stdin (pipe (keys (lit "lsX") ++ [Key ETX; Key CR])) = keys bs ++ ev :: rest /\
    (length bs < 4)%nat /\
    stdin {| tty := None; stdin := [Key CR]; stdout := lit "lsX^C" |} = rest /\
    tty {| tty := None; stdin := [Key CR]; stdout := lit "lsX^C" |} =
      tty (pipe (keys (lit "lsX") ++ [Key ETX; Key CR])) /\
    p_cmd {| p_cmd := lit "lsX" ++ repeat NUL 1021; cmd_len := 3; cmd_idx := 3 |} =
      firstn (length zeroed) bs ++ skipn (length (firstn (length zeroed) bs)) zeroed /\
    cmd_len {| p_cmd := lit "lsX" ++ repeat NUL 1021; cmd_len := 3; cmd_idx := 3 |} =
      Z.of_nat (length (firstn (length zeroed) bs)) /\
    cmd_idx {| p_cmd := lit "lsX" ++ repeat NUL 1021; cmd_len := 3; cmd_idx := 3 |} =
      cmd_len {| p_cmd := lit "lsX" ++ repeat NUL 1021; cmd_len := 3; cmd_idx := 3 |} /\
    ((ev = Key ETX /\ 1 = 1 /\
      stdout {| tty := None; stdin := [Key CR]; stdout := lit "lsX^C" |} =
        (stdout (pipe (keys (lit "lsX") ++ [Key ETX; Key CR]))
           ++ firstn (length zeroed) bs) ++ lit "^C") \/
     (ev = Key CR /\ 1 = 0 /\
      stdout {| tty := None; stdin := [Key CR]; stdout := lit "lsX^C" |} =
        stdout (pipe (keys (lit "lsX") ++ [Key ETX; Key CR]))
          ++ firstn (length zeroed) bs) \/
     ((ev = Key EOT \/ ev = ReadFail) /\ 1 = -1 /\
      stdout {| tty := None; stdin := [Key CR]; stdout := lit "lsX^C" |} =
        stdout (pipe (keys (lit "lsX") ++ [Key ETX; Key CR]))
          ++ firstn (length zeroed) bs)).
Proof.
  apply (get_cmd_loop_returns_only_so 4 zeroed
           (pipe (keys (lit "lsX") ++ [Key ETX; Key CR]))
           {| tty := None; stdin := [Key CR]; stdout := lit "lsX^C" |} 1
           {| p_cmd := lit "lsX" ++ repeat NUL 1021; cmd_len := 3; cmd_idx := 3 |}).
  - reflexivity.
  - vm_compute. reflexivity.
Defined.

Lemma get_cmd_loop_terminated (bs buf : list ascii) (ev : input_event)
    (rest : list input_event) (w : world) (fuel : nat) :
  Forall plain bs -> Z.of_nat (length buf) = DEFAULT_CMD_MAXLEN ->
  stdin w = keys bs ++ ev :: rest -> terminating ev = true ->
  (length bs < fuel)%nat ->
  get_cmd_loop fuel (-1) (editor_init buf) w <> None.
Proof.
  intros Hbs Hbuf Hw Hev Hfuel.
  destruct (terminating_cases ev Hev) as [ -> | [ -> | [ -> | -> ] ] ].
  - now rewrite (get_cmd_loop_typed bs buf ReadFail rest w (fun w1 => set_stdin w1 rest)
                   (-1) fuel Hbs Hbuf Hw
                   (fun e1 w1 H1 => get_cmd_iter_fail (-1) e1 w1 rest H1) Hfuel).
  - now rewrite (get_cmd_loop_typed bs buf (Key ETX) rest w
                   (fun w1 => printf (lit "^C") (set_stdin w1 rest)) 1 fuel Hbs Hbuf Hw
                   (fun e1 w1 H1 => get_cmd_iter_ctrl_c (-1) e1 w1 rest H1) Hfuel).
  - now rewrite (get_cmd_loop_typed bs buf (Key EOT) rest w (fun w1 => set_stdin w1 rest)
                   (-1) fuel Hbs Hbuf Hw
                   (fun e1 w1 H1 => get_cmd_iter_ctrl_d (-1) e1 w1 rest H1) Hfuel).
  - now rewrite (get_cmd_loop_typed bs buf (Key CR) rest w (fun w1 => set_stdin w1 rest)
                   0 fuel Hbs Hbuf Hw
                   (fun e1 w1 H1 => get_cmd_iter_enter (-1) e1 w1 rest H1) Hfuel).
Qed.

(** X7: [get_cmd] returns, given enough passes, exactly when the input holds
    a Ctrl-C, a Ctrl-D, a carriage return or a failing [read] somewhere;
    on any other input, however long, it never returns. *)
Theorem get_cmd_returns_iff (buf : list ascii) (con : console_t) (w : world) :
  Z.of_nat (length buf) = DEFAULT_CMD_MAXLEN ->
  ((exists fuel : nat, get_cmd fuel (Some con) (Some buf) w <> None) <->
   existsb terminating (stdin w) = true).
Proof.
  intros Hbuf.
  destruct (split_input (stdin w)) as [(bs & Hbs & Hw)|(bs & ev & rest & Hbs & Hw & Hev)].
  - split.
    + intros [fuel Hret]. exfalso. apply Hret. unfold get_cmd.
      now rewrite (get_cmd_loop_unterminated bs buf w fuel Hbs Hbuf Hw).
    + rewrite Hw, (existsb_terminating_keys bs Hbs). discriminate.
  - split.
    + intros _. rewrite Hw, existsb_app. cbn [existsb]. rewrite Hev.
      now rewrite orb_true_r.
    + intros _. exists (S (length bs)). unfold get_cmd.
      pose proof (get_cmd_loop_terminated bs buf ev rest w (S (length bs))
                    Hbs Hbuf Hw Hev (Nat.lt_succ_diag_r _)) as Hsome.
      destruct (get_cmd_loop (S (length bs)) (-1) (editor_init buf) w) as [[[s e] w']|];
        [discriminate | contradiction].
Qed.

Lemma get_cmd_returns_iff_witness :
  (exists fuel : nat,
     get_cmd fuel (Some main_console) (Some zeroed)
       (pipe (keys (lit "ls") ++ [Key CR])) <> None) <->
  existsb terminating (stdin (pipe (keys (lit "ls") ++ [Key CR]))) = true.
Proof.
  apply (get_cmd_returns_iff zeroed main_console (pipe (keys (lit "ls") ++ [Key CR]))).
  reflexivity.
Defined.

(** ** What an insertion prints *)

Lemma map_seq_succ (f : nat -> ascii) (n : nat) :
  map f (seq 0 (S n)) = f O :: map (fun k => f (S k)) (seq 0 n).
Proof. cbn [seq map]. f_equal. now rewrite <- seq_shift, map_map. Qed.

Lemma reprint_loop_stdout (fuel : nat) :
  forall (i len : Z) (p : list ascii) (w : world),
    0 <= i -> len <= DEFAULT_CMD_MAXLEN + 1 -> (Z.to_nat (len - i) <= fuel)%nat ->
    stdout (reprint_loop fuel i len p w) =
      stdout w ++ map (fun k => load p (i + Z.of_nat k)) (seq 0 (Z.to_nat (len - i))).
Proof.
  induction fuel as [|fuel IH]; intros i len p w Hi Hlen Hfuel; simpl.
  - replace (Z.to_nat (len - i)) with O by lia. simpl. now rewrite app_nil_r.
  - destruct (Z.ltb_spec i len) as [Hlt|Hge].
    + assert (Hinc : size_incr i = i + 1).
      { unfold size_incr, size_t_wrap, SIZE_MODULUS. apply Z.mod_small.
        unfold DEFAULT_CMD_MAXLEN in Hlen. lia. }
      rewrite Hinc, IH by lia. cbn [printf stdout].
      replace (Z.to_nat (len - i)) with (S (Z.to_nat (len - (i + 1)))) by lia.
      rewrite map_seq_succ, <- app_assoc. cbn [app].
      f_equal. f_equal; [f_equal; lia|].
      apply map_ext. intros k. f_equal. lia.
    + replace (Z.to_nat (len - i)) with O by lia. simpl. now rewrite app_nil_r.
Qed.

Lemma backspace_loop_stdout (fuel : nat) :
  forall (i len : Z) (w : world),
    0 <= i -> len <= DEFAULT_CMD_MAXLEN + 1 -> (Z.to_nat (len - i) <= fuel)%nat ->
    stdout (backspace_loop fuel i len w) = stdout w ++ repeat BS (Z.to_nat (len - i)).
Proof.
  induction fuel as [|fuel IH]; intros i len w Hi Hlen Hfuel; simpl.
  - replace (Z.to_nat (len - i)) with O by lia. simpl. now rewrite app_nil_r.
  - destruct (Z.ltb_spec i len) as [Hlt|Hge].
    + assert (Hinc : size_incr i = i + 1).
      { unfold size_incr, size_t_wrap, SIZE_MODULUS. apply Z.mod_small.
        unfold DEFAULT_CMD_MAXLEN in Hlen. lia. }
      rewrite Hinc, IH by lia. cbn [printf stdout].
      replace (Z.to_nat (len - i)) with (S (Z.to_nat (len - (i + 1)))) by lia.
      cbn [repeat]. now rewrite <- app_assoc.
    + replace (Z.to_nat (len - i)) with O by lia. simpl. now rewrite app_nil_r.
Qed.

(** X8: An insertion with the cursor anywhere in the line prints the new
    byte, then the bytes that stood from the cursor to the end of the line
    (they have moved one column to the right), then one backspace for each
    of them; the terminal settings and the pending input are not touched. *)
Theorem insert_char_output (c : ascii) (e : editor) (w : world) :
  0 <= cmd_idx e <= cmd_len e ->
  cmd_len e < DEFAULT_CMD_MAXLEN ->
  Z.of_nat (length (p_cmd e)) = DEFAULT_CMD_MAXLEN ->
  stdout (snd (insert_char c e w)) =
    stdout w ++ [c]
      ++ map (fun k => load (p_cmd e) (cmd_idx e + Z.of_nat k))
             (seq 0 (Z.to_nat (cmd_len e - cmd_idx e)))
      ++ repeat BS (Z.to_nat (cmd_len e - cmd_idx e)) /\
  tty (snd (insert_char c e w)) = tty w /\
  stdin (snd (insert_char c e w)) = stdin w.
Proof.
  intros Hidx Hlen Hbuf.
  split; [|apply insert_char_frame].
  unfold insert_char, fflush. cbn [snd].
  rewrite !size_incr_small by lia.
  rewrite backspace_loop_stdout, reprint_loop_stdout by lia.
  cbn [printf stdout].
  replace (cmd_len e + 1 - (cmd_idx e + 1)) with (cmd_len e - cmd_idx e) by lia.
  rewrite <- !app_assoc. cbn [app]. do 2 f_equal. f_equal.
  apply map_ext_in. intros k Hk. apply in_seq in Hk.
  rewrite load_store by (rewrite ?length_shift_loop; lia).
  destruct (Z.eqb_spec (cmd_idx e + 1 + Z.of_nat k) (cmd_idx e)); [lia|].
  rewrite load_shift_loop by lia.
  destruct (Z.ltb_spec (cmd_idx e) (cmd_idx e + 1 + Z.of_nat k)),
           (Z.leb_spec (cmd_idx e + 1 + Z.of_nat k) (cmd_len e));
    cbn [andb]; try lia.
  f_equal. lia.
Qed.

Lemma insert_char_output_witness :
  let e := {| p_cmd := lit "abcdef" ++ repeat NUL 1018; cmd_len := 6; cmd_idx := 2 |} in
  stdout (snd (insert_char "X"%char e (pipe []))) =
    stdout (pipe []) ++ ["X"%char]
      ++ map (fun k => load (p_cmd e) (cmd_idx e + Z.of_nat k))
             (seq 0 (Z.to_nat (cmd_len e - cmd_idx e)))
      ++ repeat BS (Z.to_nat (cmd_len e - cmd_idx e)) /\
  tty (snd (insert_char "X"%char e (pipe []))) = tty (pipe []) /\
  stdin (snd (insert_char "X"%char e (pipe []))) = stdin (pipe []).
Proof.
  intros e.
  apply (insert_char_output "X"%char e (pipe [])).
  - vm_compute. split; discriminate.
  - vm_compute. reflexivity.
  - reflexivity.
Defined.

(** ** A pass of the main loop *)

Lemma c_string_cut (pre cut t : list ascii) :
  ~ In NUL pre -> hd NUL cut = NUL ->
  c_string ((pre ++ cut) ++ NUL :: t) = Some pre.
Proof.
  intros Hpre Hcut. rewrite <- app_assoc.
  destruct cut as [|x cut']; cbn [hd] in Hcut.
  - now apply c_string_no_nul.
  - subst x. cbn [app]. now apply c_string_no_nul.
Qed.

Lemma c_string_unterminated (p : list ascii) : ~ In NUL p -> c_string p = None.
Proof.
  induction p as [|c p IH]; intros Hno; simpl; [reflexivity|].
  destruct (Ascii.eqb_spec c NUL) as [->|_].
  - exfalso. apply Hno. now left.
  - rewrite IH; [reflexivity|]. intros Hin. apply Hno. now right.
Qed.

Lemma length_zeroed : length zeroed = capacity.
Proof. apply repeat_length. Qed.

(** What [get_cmd] hands back to the main loop after a line of fewer
    than 1024 bytes that ends with the event [ev]. *)
Lemma get_cmd_short_line (bs : list ascii) (con : console_t) (ev : input_event)
    (rest : list input_event) (w : world) (w2 : world -> world) (s : Z) (fuel : nat) :
  Forall plain bs -> Z.of_nat (length bs) < DEFAULT_CMD_MAXLEN ->
  stdin w = keys bs ++ ev :: rest ->
  (forall e w1, stdin w1 = ev :: rest -> get_cmd_iter (-1) e w1 = Exit s e (w2 w1)) ->
  (length bs < fuel)%nat ->
  get_cmd fuel (Some con) (Some zeroed) w =
    Some (s, Some (bs ++ NUL :: repeat NUL (capacity - S (length bs))),
          w2 {| tty := tty w; stdin := ev :: rest; stdout := stdout w ++ bs |}).
Proof.
  intros Hbs Hshort Hw Hexit Hfuel.
  rewrite (get_cmd_of_loop fuel con zeroed w _ s _
             (get_cmd_loop_typed bs zeroed ev rest w w2 s fuel Hbs eq_refl Hw
                Hexit Hfuel)).
  cbn [p_cmd]. rewrite (typed_into_zeroed bs Hshort).
  pose proof length_zeroed. pose proof capacity_eq.
  rewrite firstn_all2 by lia. reflexivity.
Qed.

(** X9: A line of fewer than 1024 bytes ended by a carriage return: the pass
    prints the prompt, the echo of everything typed, a line break, and
    then the command between quotes, where the command is what was typed
    up to the first NUL byte, if there is one.  The loop goes round
    again. *)
Theorem console_turn_completed (pre cut buf : list ascii) (con : console_t)
    (prompt_c : ascii) (rest : list input_event) (w : world) (fuel : nat) :
  Forall plain (pre ++ cut) ->
  ~ In NUL pre -> hd NUL cut = NUL ->
  Z.of_nat (length (pre ++ cut)) < DEFAULT_CMD_MAXLEN ->
  Z.of_nat (length buf) = DEFAULT_CMD_MAXLEN ->
  stdin w = keys (pre ++ cut) ++ Key CR :: rest ->
  (length (pre ++ cut) < fuel)%nat ->
  console_turn fuel (Some con) prompt_c buf w =
    Again ((pre ++ cut) ++ repeat NUL (capacity - length (pre ++ cut)))
      {| tty := tty w; stdin := rest;
         stdout := stdout w ++ prompt prompt_c ++ (pre ++ cut) ++ CRLF
                     ++ lit "'" ++ pre ++ lit "'" ++ CRLF |} /\
  console_loop (S fuel) (Some con) prompt_c buf w =
    console_loop fuel (Some con) prompt_c
      ((pre ++ cut) ++ repeat NUL (capacity - length (pre ++ cut)))
      {| tty := tty w; stdin := rest;
         stdout := stdout w ++ prompt prompt_c ++ (pre ++ cut) ++ CRLF
                     ++ lit "'" ++ pre ++ lit "'" ++ CRLF |}.
Proof.
  intros Hbs Hpre Hcut Hshort Hbuf Hw Hfuel.
  assert (Hturn : forall k : nat, (length (pre ++ cut) < k)%nat ->
    console_turn k (Some con) prompt_c buf w =
    Again ((pre ++ cut) ++ repeat NUL (capacity - length (pre ++ cut)))
      {| tty := tty w; stdin := rest;
         stdout := stdout w ++ prompt prompt_c ++ (pre ++ cut) ++ CRLF
                     ++ lit "'" ++ pre ++ lit "'" ++ CRLF |}).
  { intros k Hk. unfold console_turn. rewrite (memset_full buf Hbuf). unfold fflush.
    rewrite (get_cmd_short_line (pre ++ cut) con (Key CR) rest
               (printf (prompt prompt_c) w) (fun w1 => set_stdin w1 rest) 0 k
               Hbs Hshort Hw
               (fun e w1 H1 => get_cmd_iter_enter (-1) e w1 rest H1) Hk).
    change (0 >? 0) with false. change (1 =? 0) with false. cbv iota.
    rewrite (c_string_cut pre cut _ Hpre Hcut).
    pose proof capacity_eq.
    replace (capacity - length (pre ++ cut))%nat
      with (S (capacity - S (length (pre ++ cut)))) by lia.
    cbn [repeat]. f_equal.
    unfold printf, set_stdin; cbn [tty stdin stdout].
    now rewrite <- !app_assoc. }
  split; [now apply Hturn|].
  cbn [console_loop]. rewrite Hturn by lia. reflexivity.
Qed.

Lemma console_turn_completed_witness :
  console_turn 6 (Some main_console) "$"%char zeroed
    (terminal (keys (lit "ls" ++ NUL :: lit "-l") ++ [Key CR])) =
    Again ((lit "ls" ++ NUL :: lit "-l")
             ++ repeat NUL (capacity - length (lit "ls" ++ NUL :: lit "-l")))
      {| tty := Some cooked; stdin := [];
         stdout := [] ++ prompt "$"%char ++ (lit "ls" ++ NUL :: lit "-l") ++ CRLF
                     ++ lit "'" ++ lit "ls" ++ lit "'" ++ CRLF |} /\
  console_loop 7 (Some main_console) "$"%char zeroed
    (terminal (keys (lit "ls" ++ NUL :: lit "-l") ++ [Key CR])) =
    console_loop 6 (Some main_console) "$"%char
      ((lit "ls" ++ NUL :: lit "-l")
         ++ repeat NUL (capacity - length (lit "ls" ++ NUL :: lit "-l")))
      {| tty := Some cooked; stdin := [];
         stdout := [] ++ prompt "$"%char ++ (lit "ls" ++ NUL :: lit "-l") ++ CRLF
                     ++ lit "'" ++ lit "ls" ++ lit "'" ++ CRLF |}.
Proof.
  apply (console_turn_completed (lit "ls") (NUL :: lit "-l") zeroed main_console
           "$"%char [] (terminal (keys (lit "ls" ++ NUL :: lit "-l") ++ [Key CR])) 6).
  - repeat constructor; discriminate.
  - intros [Hl|[Hs|[]]]; discriminate.
  - reflexivity.
  - vm_compute. reflexivity.
  - reflexivity.
  - reflexivity.
  - simpl. lia.
Defined.

(** X10: A line of 1024 or more bytes, none of them NUL, ended by a carriage
    return or by Ctrl-C: [get_cmd] has filled the array to its last cell,
    and the string the main loop then reads with [strlen] or prints with
    %s has no terminator inside the array. *)
Theorem console_turn_unterminated (bs buf : list ascii) (con : console_t)
    (prompt_c : ascii) (ev : input_event) (rest : list input_event) (w : world)
    (fuel : nat) :
  Forall plain bs -> ~ In NUL bs ->
  DEFAULT_CMD_MAXLEN <= Z.of_nat (length bs) ->
  Z.of_nat (length buf) = DEFAULT_CMD_MAXLEN ->
  ev = Key CR \/ ev = Key ETX ->
  stdin w = keys bs ++ ev :: rest ->
  (length bs < fuel)%nat ->
  (exists (s : Z) (w' : world),
     get_cmd fuel (Some con) (Some zeroed) (printf (prompt prompt_c) w) =
       Some (s, Some (firstn capacity bs), w') /\
     c_string (firstn capacity bs) = None) /\
  console_turn fuel (Some con) prompt_c buf w = TurnUndefined.
Proof.
  intros Hbs Hno Hlong Hbuf Hev Hw Hfuel.
  pose proof length_zeroed as Hz. pose proof capacity_eq as Hcap.
  assert (Hfull : typed_into zeroed bs = firstn capacity bs).
  { unfold typed_into. rewrite Hz, skipn_all2, app_nil_r; [reflexivity|].
    rewrite length_firstn, Hz. lia. }
  assert (Hnone : c_string (firstn capacity bs) = None).
  { apply c_string_unterminated. intros Hin. apply Hno.
    rewrite <- (firstn_skipn capacity bs). apply in_or_app. now left. }
  unfold console_turn. rewrite (memset_full buf Hbuf). unfold fflush.
  destruct Hev; subst ev.
  - rewrite (get_cmd_of_loop fuel con zeroed _ _ 0 _
               (get_cmd_loop_typed bs zeroed (Key CR) rest (printf (prompt prompt_c) w)
                  (fun w1 => set_stdin w1 rest) 0 fuel Hbs eq_refl Hw
                  (fun e w1 H1 => get_cmd_iter_enter (-1) e w1 rest H1) Hfuel)).
    cbn [p_cmd]. rewrite Hfull. split; [eauto|].
    change (0 >? 0) with false. change (1 =? 0) with false. cbv iota.
    now rewrite Hnone.
  - rewrite (get_cmd_of_loop fuel con zeroed _ _ 1 _
               (get_cmd_loop_typed bs zeroed (Key ETX) rest (printf (prompt prompt_c) w)
                  (fun w1 => printf (lit "^C") (set_stdin w1 rest)) 1 fuel Hbs eq_refl Hw
                  (fun e w1 H1 => get_cmd_iter_ctrl_c (-1) e w1 rest H1) Hfuel)).
    cbn [p_cmd]. rewrite Hfull. split; [eauto|].
    change (0 >? 1) with false. change (1 =? 1) with true. cbv iota.
    unfold strlen. now rewrite Hnone.
Qed.

Lemma console_turn_unterminated_witness :
  (exists (s : Z) (w' : world),
     get_cmd 1025 (Some main_console) (Some zeroed)
       (printf (prompt "$"%char) (terminal (keys (repeat "a"%char 1024) ++ [Key CR]))) =
       Some (s, Some (firstn capacity (repeat "a"%char 1024)), w') /\
     c_string (firstn capacity (repeat "a"%char 1024)) = None) /\
  console_turn 1025 (Some main_console) "$"%char zeroed
    (terminal (keys (repeat "a"%char 1024) ++ [Key CR])) = TurnUndefined.
Proof.
  apply (console_turn_unterminated (repeat "a"%char 1024) zeroed main_console
           "$"%char (Key CR) [] (terminal (keys (repeat "a"%char 1024) ++ [Key CR]))
           1025).
  - apply Forall_forall. intros c Hc. apply repeat_spec in Hc. subst c.
    repeat split; discriminate.
  - intros Hin. apply repeat_spec in Hin. discriminate.
  - vm_compute. discriminate.
  - reflexivity.
  - left. reflexivity.
  - reflexivity.
  - rewrite repeat_length. lia.
Defined.

(** ** A whole session *)

Lemma console_turn_line (l : list ascii * bool) (buf : list ascii) (con : console_t)
    (prompt_c : ascii) (rest : list input_event) (w : world) (fuel : nat) :
  short_text l ->
  Z.of_nat (length buf) = DEFAULT_CMD_MAXLEN ->
  stdin w = line_input l ++ rest ->
  (length (fst l) < fuel)%nat ->
  console_turn fuel (Some con) prompt_c buf w =
    Again (fst l ++ NUL :: repeat NUL (capacity - S (length (fst l))))
      {| tty := tty w; stdin := rest;
         stdout := stdout w ++ line_output prompt_c l |}.
Proof.
  destruct l as [bs cancel]. unfold short_text, line_input, line_output.
  cbn [fst snd]. intros (Hbs & Hno & Hshort) Hbuf Hw Hfuel.
  rewrite <- app_assoc in Hw. cbn [app] in Hw.
  unfold console_turn. rewrite (memset_full buf Hbuf). unfold fflush.
  destruct cancel.
  - rewrite (get_cmd_short_line bs con (Key ETX) rest (printf (prompt prompt_c) w)
               (fun w1 => printf (lit "^C") (set_stdin w1 rest)) 1 fuel Hbs Hshort Hw
               (fun e w1 H1 => get_cmd_iter_ctrl_c (-1) e w1 rest H1) Hfuel).
    change (0 >? 1) with false. change (1 =? 1) with true. cbv iota.
    unfold strlen. rewrite (c_string_no_nul bs _ Hno).
    unfold printf, set_stdin; cbn [tty stdin stdout].
    destruct bs as [|c bs']; cbn [length Z.of_nat].
    + cbn. rewrite <- !app_assoc. reflexivity.
    + destruct (Z.eqb_spec 0 (Z.pos (Pos.of_succ_nat (length bs')))) as [Hz|_]; [lia|].
      f_equal. f_equal. rewrite <- !app_assoc. cbn [app].
      now rewrite !app_nil_r.
  - rewrite (get_cmd_short_line bs con (Key CR) rest (printf (prompt prompt_c) w)
               (fun w1 => set_stdin w1 rest) 0 fuel Hbs Hshort Hw
               (fun e w1 H1 => get_cmd_iter_enter (-1) e w1 rest H1) Hfuel).
    change (0 >? 0) with false. change (1 =? 0) with false. cbv iota.
    rewrite (c_string_no_nul bs _ Hno).
    unfold printf, set_stdin; cbn [tty stdin stdout].
    now rewrite <- !app_assoc.
Qed.

Lemma console_turn_break (bs buf : list ascii) (con : console_t) (prompt_c : ascii)
    (ev : input_event) (rest : list input_event) (w : world) (fuel : nat) :
  Forall plain bs ->
  Z.of_nat (length buf) = DEFAULT_CMD_MAXLEN ->
  ev = Key EOT \/ ev = ReadFail ->
  stdin w = keys bs ++ ev :: rest ->
  (length bs < fuel)%nat ->
  console_turn fuel (Some con) prompt_c buf w =
    Break (typed_into zeroed bs)
      {| tty := tty w; stdin := rest;
         stdout := stdout w ++ prompt prompt_c ++ firstn capacity bs ++ CRLF |}.
Proof.
  intros Hbs Hbuf Hev Hw Hfuel.
  unfold console_turn. rewrite (memset_full buf Hbuf). unfold fflush.
  assert (Hexit : forall e w1, stdin w1 = ev :: rest ->
            get_cmd_iter (-1) e w1 = Exit (-1) e (set_stdin w1 rest)).
  { intros e w1 H1. destruct Hev; subst ev.
    - now apply get_cmd_iter_ctrl_d.
    - now apply get_cmd_iter_fail. }
  rewrite (get_cmd_of_loop fuel con zeroed _ _ (-1) _
             (get_cmd_loop_typed bs zeroed ev rest (printf (prompt prompt_c) w)
                (fun w1 => set_stdin w1 rest) (-1) fuel Hbs eq_refl Hw Hexit Hfuel)).
  cbn [p_cmd]. change (0 >? -1) with true. cbv iota.
  rewrite length_zeroed.
  unfold printf, set_stdin; cbn [tty stdin stdout].
  now rewrite <- !app_assoc.
Qed.

Lemma console_loop_session (con : console_t) (prompt_c : ascii) (last : list ascii)
    (ev : input_event) (rest : list input_event) (ls : list (list ascii * bool)) :
  Forall plain last -> ev = Key EOT \/ ev = ReadFail ->
  forall (fuel : nat) (buf : list ascii) (w : world),
    Forall short_text ls ->
    Z.of_nat (length buf) = DEFAULT_CMD_MAXLEN ->
    stdin w = concat (map line_input ls) ++ keys last ++ ev :: rest ->
    (length (concat (map line_input ls)) + length last < fuel)%nat ->
    console_loop fuel (Some con) prompt_c buf w =
      Done {| tty := tty w; stdin := rest;
              stdout := stdout w ++ concat (map (line_output prompt_c) ls)
                          ++ prompt prompt_c ++ firstn capacity last ++ CRLF |}.
Proof.
  intros Hlast Hev.
  induction ls as [|l ls IH]; intros fuel buf w Hls Hbuf Hw Hfuel.
  - cbn [map concat app length] in *.
    destruct fuel as [|fuel]; [lia|]. cbn [console_loop].
    rewrite (console_turn_break last buf con prompt_c ev rest w (S fuel))
      by (assumption || lia).
    reflexivity.
  - inversion Hls as [|? ? Hl Hls']; subst.
    cbn [map concat] in Hw, Hfuel |- *. rewrite <- app_assoc in Hw.
    rewrite length_app in Hfuel.
    assert (Hlen : length (line_input l) = S (length (fst l))).
    { unfold line_input, keys. rewrite length_app, length_map. cbn [length]. lia. }
    destruct fuel as [|fuel]; [lia|]. cbn [console_loop].
    rewrite (console_turn_line l buf con prompt_c _ w (S fuel) Hl Hbuf Hw) by lia.
    rewrite IH; [ | assumption | | reflexivity | cbn [stdin]; lia ].
    + cbn [tty stdin stdout]. now rewrite <- !app_assoc.
    + destruct Hl as (_ & _ & Hshort). pose proof capacity_eq.
      rewrite length_app. cbn [length]. rewrite repeat_length. lia.
Qed.

Section Session.

Context {H : termios_h}.

(** X11: A session on a terminal: any number of lines, each of fewer than
    1024 bytes other than NUL, 0x03, 0x04 and 13 and each ended by a
    carriage return or by Ctrl-C, then some more bytes and a Ctrl-D or a
    failing [read].  [main] returns 0.  It has printed the banner; for
    each line the prompt, the echo, and either the line between quotes or
    ^C (with the hint when the cancelled line was empty); then the prompt,
    the echo of the unfinished line, and the exit message.  The input
    behind the final event is unread and the terminal settings are the
    ones found at the start. *)
Theorem main_session_output (ls : list (list ascii * bool)) (last stack : list ascii)
    (ev : input_event) (rest : list input_event) (w : world) (cur : termios)
    (fuel : nat) :
  tty w = Some cur ->
  Z.of_nat (length stack) = DEFAULT_CMD_MAXLEN ->
  Forall short_text ls ->
  Forall plain last ->
  ev = Key EOT \/ ev = ReadFail ->
  stdin w = concat (map line_input ls) ++ keys last ++ ev :: rest ->
  (length (concat (map line_input ls)) + length last < fuel)%nat ->
  main fuel stack w =
    Done (0,
          {| tty := Some cur; stdin := rest;
             stdout := stdout w ++ banner
                         ++ concat (map (line_output "$"%char) ls)
                         ++ prompt "$"%char ++ firstn capacity last ++ CRLF
                         ++ lit "Exiting..." ++ CRLF |}).
Proof.
  intros Htty Hstack Hls Hlast Hev Hw Hfuel.
  unfold main, console_run.
  rewrite (console_initialize_terminal main_console w cur Htty).
  change (-1 =? 0) with false. cbv iota.
  rewrite (console_loop_session _ "$"%char last ev rest ls Hlast Hev fuel stack
             (printf banner {| tty := Some (make_raw cur); stdin := stdin w;
                               stdout := stdout w |})
             Hls Hstack Hw Hfuel).
  unfold console_finalize, tcsetattr, printf, set_tty.
  cbn [old_console tty stdin stdout snd].
  now rewrite <- !app_assoc.
Qed.

End Session.

Lemma main_session_output_witness :
  main (H := linux_termios_h) 8 zeroed
    (terminal (concat (map line_input [(lit "ls", false); ([], true)])
                 ++ keys (lit "pw") ++ Key EOT :: [Key CR])) =
    Done (0,
          {| tty := Some cooked; stdin := [Key CR];
             stdout := [] ++ banner
                         ++ concat (map (line_output "$"%char)
                                        [(lit "ls", false); ([], true)])
                         ++ prompt "$"%char ++ firstn capacity (lit "pw") ++ CRLF
                         ++ lit "Exiting..." ++ CRLF |}).
Proof.
  apply (main_session_output (H := linux_termios_h)
           [(lit "ls", false); ([], true)] (lit "pw") zeroed (Key EOT) [Key CR]
           (terminal (concat (map line_input [(lit "ls", false); ([], true)])
                        ++ keys (lit "pw") ++ Key EOT :: [Key CR]))
           cooked 8).
  - reflexivity.
  - reflexivity.
  - repeat constructor; try discriminate; cbn; try lia;
      try (intros [Hl|[Hs|[]]]; discriminate); try (intros []).
  - repeat constructor; discriminate.
  - left. reflexivity.
  - reflexivity.
  - cbn. lia.
Defined.

(** ** A session whose input just ends *)

Lemma console_turn_running (bs buf : list ascii) (con : console_t) (prompt_c : ascii)
    (rest : list input_event) (w : world) (fuel : nat) :
  Forall plain bs ->
  Z.of_nat (length buf) = DEFAULT_CMD_MAXLEN ->
  stdin w = keys bs ++ rest ->
  rest = [] \/ (fuel <= length bs)%nat ->
  console_turn fuel (Some con) prompt_c buf w = TurnRunning.
Proof.
  intros Hbs Hbuf Hw Hcase.
  unfold console_turn. rewrite (memset_full buf Hbuf). unfold fflush, get_cmd.
  destruct Hcase as [-> | Hshort].
  - rewrite app_nil_r in Hw.
    now rewrite (get_cmd_loop_unterminated bs zeroed (printf (prompt prompt_c) w) fuel
                   Hbs eq_refl Hw).
  - now rewrite (get_cmd_loop_too_short bs zeroed (printf (prompt prompt_c) w) rest fuel
                   Hbs eq_refl Hw Hshort).
Qed.

Lemma console_loop_closed (con : console_t) (prompt_c : ascii) (last : list ascii)
    (ls : list (list ascii * bool)) :
  Forall plain last ->
  forall (fuel : nat) (buf : list ascii) (w : world),
    Forall short_text ls ->
    Z.of_nat (length buf) = DEFAULT_CMD_MAXLEN ->
    stdin w = concat (map line_input ls) ++ keys last ->
    console_loop fuel (Some con) prompt_c buf w = Running.
Proof.
  intros Hlast.
  induction ls as [|l ls IH]; intros fuel buf w Hls Hbuf Hw;
    (destruct fuel as [|fuel]; [reflexivity|]); cbn [console_loop].
  - cbn [map concat app] in Hw.
    rewrite (console_turn_running last buf con prompt_c [] w (S fuel));
      [reflexivity | assumption | assumption | now rewrite app_nil_r | now left].
  - inversion Hls as [|? ? Hl Hls']; subst.
    cbn [map concat] in Hw. rewrite <- app_assoc in Hw.
    destruct (Nat.le_gt_cases (S fuel) (length (fst l))) as [Hshort|Hfuel].
    + pose proof Hl as (Hbs & _ & _).
      unfold line_input in Hw. rewrite <- app_assoc in Hw.
      rewrite (console_turn_running (fst l) buf con prompt_c _ w (S fuel) Hbs Hbuf Hw);
        [reflexivity | now right].
    + rewrite (console_turn_line l buf con prompt_c _ w (S fuel) Hl Hbuf Hw Hfuel).
      apply IH; [assumption | | reflexivity].
      destruct Hl as (_ & _ & Hshort). pose proof capacity_eq.
      rewrite length_app. cbn [length]. rewrite repeat_length. lia.
Qed.

Section Closed.

Context {H : termios_h}.

(** X12: When the input of a session on a terminal ends without a Ctrl-D and
    without a failing [read] (after any number of finished lines and any
    unfinished one), [main] never returns: however many passes it is
    given, it is still inside [get_cmd], so the exit message is never
    printed and [console_finalize] is never reached. *)
Theorem main_never_returns_on_closed_stream (ls : list (list ascii * bool))
    (last stack : list ascii) (w : world) (cur : termios) (fuel : nat) :
  tty w = Some cur ->
  Z.of_nat (length stack) = DEFAULT_CMD_MAXLEN ->
  Forall short_text ls ->
  Forall plain last ->
  stdin w = concat (map line_input ls) ++ keys last ->
  main fuel stack w = Running /\
  console_run fuel (Some main_console) stack w = Running.
Proof.
  intros Htty Hstack Hls Hlast Hw.
  assert (Hrun : console_run fuel (Some main_console) stack w = Running).
  { unfold console_run.
    rewrite (console_initialize_terminal main_console w cur Htty).
    change (-1 =? 0) with false. cbv iota.
    now rewrite (console_loop_closed _ "$"%char last ls Hlast fuel stack
                   (printf banner {| tty := Some (make_raw cur); stdin := stdin w;
                                     stdout := stdout w |})
                   Hls Hstack Hw). }
  split; [|exact Hrun].
  unfold main. now rewrite Hrun.
Qed.

End Closed.

Lemma main_never_returns_on_closed_stream_witness :
  main (H := linux_termios_h) 3000 zeroed
    (terminal (concat (map line_input [(lit "ls", false)]) ++ keys (lit "pw"))) =
    Running /\
  console_run (H := linux_termios_h) 3000 (Some main_console) zeroed
    (terminal (concat (map line_input [(lit "ls", false)]) ++ keys (lit "pw"))) =
    Running.
Proof.
  apply (main_never_returns_on_closed_stream (H := linux_termios_h)
           [(lit "ls", false)] (lit "pw") zeroed
           (terminal (concat (map line_input [(lit "ls", false)]) ++ keys (lit "pw")))
           cooked 3000).
  - reflexivity.
  - reflexivity.
  - repeat constructor; try discriminate; cbn; try lia;
      try (intros [Hl|[Hs|[]]]; discriminate).
  - repeat constructor; discriminate.
  - reflexivity.
Defined.
